(** * Trivia-AI-Game: the live audio session, its PCM codec and the question
      generator

    A shallow embedding of
      - [App.tsx] (the session orchestrator: [endSession], [handleStart],
        [startLiveSession] with its [onopen]/[onmessage]/[onclose]/[onerror]
        callbacks, [handleEndGame]),
      - [services/geminiService.ts] ([generateQuestions],
        [generateSummarySpeech]),
      - [components/SetupScreen.tsx] (the setup form),
      - the PCM codec of [services/audioUtils.ts], whose source is not
        available and which is therefore modelled from the specification.

    Conventions.
      - Times on the audio clock and audio samples are rationals ([Q]).  All
        the values the program manipulates are dyadic or ratios of sample
        counts and sample rates; the rounding of binary64 arithmetic is not
        part of the model.  Equalities between times are stated with [==].
      - A JavaScript exception is an explicit [Completion]; a handler returns
        the state it reached together with the way it completed.  A promise
        that the code drops without a handler ([AudioContext.close()]) is
        recorded in the state when it rejects.
      - [startLiveSession] and [handleEndGame] wait for an answer from
        outside (the microphone prompt, the summary call): each is one step
        up to its [await] and one step from the answer on, and any event can
        come in between.
      - The browser objects the program holds references to (audio contexts,
        media streams, buffer source nodes) live in stores indexed by
        allocation order; a reference is an index. *)

From Stdlib Require Import ZArith QArith Qminmax Qabs Lqa Lia.
From Stdlib Require Import List String Ascii Bool.
Import ListNotations.

Set Warnings "-register-all".

Local Open Scope string_scope.
Local Open Scope list_scope.
Local Open Scope Z_scope.

(* ================================================================== *)
(** ** PCM codec *)
(* ================================================================== *)

Module Codec.

(** A decoded buffer: a flat, channel-interleaved run of samples together
    with the sample rate and the channel count it was packed with. *)
Record AudioBuffer := mkAudioBuffer {
  sampleRate : positive;
  numberOfChannels : positive;
  interleaved : list Q
}.

(** Number of sample frames, and the duration [frames / sampleRate]. *)
Definition frames (b : AudioBuffer) : nat :=
  Nat.div (List.length (interleaved b)) (Pos.to_nat (numberOfChannels b)).

Definition duration (b : AudioBuffer) : Q :=
  Z.of_nat (frames b) # sampleRate b.

(** Samples of channel [c]: every [numberOfChannels]-th sample from [c]. *)
Definition getChannelData (b : AudioBuffer) (c : nat) : list Q :=
  List.map
    (fun i => List.nth (i * Pos.to_nat (numberOfChannels b) + c)%nat
                       (interleaved b) 0%Q)
    (List.seq 0 (frames b)).

(** Modelled from the spec: the sample quantiser of [encode] in
    services/audioUtils.ts (source not available).  "For each sample, clamp
    to [-1,1], scale by 0x7FFF (scale by 0x8000 only for negative values),
    truncate to a 16-bit signed integer". *)
Definition clamp (s : Q) : Q := Qmax (-1) (Qmin 1 s).

Definition truncate (q : Q) : Z := Z.quot (Qnum q) (Zpos (Qden q)).

Definition scale (c : Q) : Q :=
  match c ?= 0 with
  | Lt => c * 32768
  | _ => c * 32767
  end%Q.

(** Wrap-around of a store into a 16-bit signed slot. *)
Definition toInt16 (z : Z) : Z := (z + 32768) mod 65536 - 32768.

Definition quantize (s : Q) : Z := toInt16 (truncate (scale (clamp s))).

(** Little-endian bytes of a 16-bit signed integer (two's complement). *)
Definition lowByte (v : Z) : Z := Z.land (v mod 65536) 255.
Definition highByte (v : Z) : Z := Z.land (Z.shiftr (v mod 65536) 8) 255.

(** Modelled from the spec: [encode] of services/audioUtils.ts (source not
    available): quantise every sample and emit it little-endian. *)
Definition encode (samples : list Q) : list Z :=
  List.flat_map (fun s => [lowByte (quantize s); highByte (quantize s)])
                samples.

(** Reading a little-endian 16-bit signed integer back. *)
Definition int16OfBytes (lo hi : Z) : Z :=
  let u := Z.lor lo (Z.shiftl hi 8) in
  if u <? 32768 then u else u - 65536.

(** "converts each to a float in [-1,1] by dividing by 0x8000". *)
Definition sampleOfInt16 (v : Z) : Q := v # 32768.

Fixpoint samplesOfBytes (bytes : list Z) : list Q :=
  match bytes with
  | lo :: hi :: rest => sampleOfInt16 (int16OfBytes lo hi) :: samplesOfBytes rest
  | _ => []
  end.

(** Modelled from the spec: [decode] of services/audioUtils.ts
    ([decodeAudioData], source not available).  "Interprets bytes as a
    sequence of little-endian 16-bit signed PCM samples (one flat run,
    channel-interleaved per channelCount), converts each to a float in [-1,1]
    by dividing by 0x8000, and packs the result into a buffer at sampleRate.
    Fails with DecodeError if bytes.length is not a multiple of
    2 * channelCount."  [None] is the failure. *)
Definition decode (bytes : list Z) (rate channelCount : positive)
  : option AudioBuffer :=
  if Z.of_nat (List.length bytes) mod (2 * Zpos channelCount) =? 0
  then Some (mkAudioBuffer rate channelCount (samplesOfBytes bytes))
  else None.

(** Value of a character of the standard base64 alphabet. *)
Definition base64Value (c : ascii) : option Z :=
  let n := Z.of_nat (nat_of_ascii c) in
  if (65 <=? n) && (n <=? 90) then Some (n - 65)
  else if (97 <=? n) && (n <=? 122) then Some (n - 71)
  else if (48 <=? n) && (n <=? 57) then Some (n + 4)
  else if n =? 43 then Some 62
  else if n =? 47 then Some 63
  else None.

(** Modelled from the spec: [fromTransportText] of services/audioUtils.ts
    ([base64ToUint8Array], source not available).  "Inverse of the standard
    base64 encoding; fails with MalformedPayload if the text is not valid
    base64."  Four characters give three bytes; padding is accepted in the
    last group only.  [None] is the failure. *)
Fixpoint fromTransportText (text : string) : option (list Z) :=
  match text with
  | EmptyString => Some []
  | String a (String b (String "=" (String "=" EmptyString))) =>
      match base64Value a, base64Value b with
      | Some x, Some y => Some [Z.lor (Z.shiftl x 2) (Z.shiftr y 4)]
      | _, _ => None
      end
  | String a (String b (String c (String "=" EmptyString))) =>
      match base64Value a, base64Value b, base64Value c with
      | Some x, Some y, Some z =>
          Some [Z.lor (Z.shiftl x 2) (Z.shiftr y 4);
                Z.lor (Z.shiftl (Z.land y 15) 4) (Z.shiftr z 2)]
      | _, _, _ => None
      end
  | String a (String b (String c (String d rest))) =>
      match base64Value a, base64Value b, base64Value c, base64Value d,
            fromTransportText rest with
      | Some x, Some y, Some z, Some w, Some bytes =>
          Some (Z.lor (Z.shiftl x 2) (Z.shiftr y 4)
                :: Z.lor (Z.shiftl (Z.land y 15) 4) (Z.shiftr z 2)
                :: Z.lor (Z.shiftl (Z.land z 3) 6) w
                :: bytes)
      | _, _, _, _, _ => None
      end
  | _ => None
  end.

End Codec.

(* ================================================================== *)
(** ** Messages of the live transport (the part of [LiveServerMessage]
       that [onmessage] reads) *)
(* ================================================================== *)

Module Live.

Record Blob := mkBlob { data : option string }.

Record Part := mkPart {
  text : option string;
  inlineData : option Blob
}.

Record Content := mkContent { parts : option (list Part) }.

Record LiveServerContent := mkServerContent {
  modelTurn : option Content;
  interrupted : option bool
}.

Record LiveServerMessage := mkMessage {
  serverContent : option LiveServerContent
}.

(** Optional chaining [o?.f]. *)
Definition chain {A B : Type} (o : option A) (f : A -> option B) : option B :=
  match o with
  | Some a => f a
  | None => None
  end.

(** [message.serverContent?.modelTurn?.parts?.[0]] *)
Definition firstPart (message : LiveServerMessage) : option Part :=
  chain (chain (chain (serverContent message) modelTurn) parts)
        (fun ps => List.nth_error ps 0).

(** [message.serverContent?.modelTurn?.parts?.[0]?.text] *)
Definition firstText (message : LiveServerMessage) : option string :=
  chain (firstPart message) text.

(** [message.serverContent?.modelTurn?.parts?.[0]?.inlineData?.data] *)
Definition firstInlineData (message : LiveServerMessage) : option string :=
  chain (chain (firstPart message) inlineData) data.

(** [message.serverContent?.interrupted] as a condition. *)
Definition isInterrupted (message : LiveServerMessage) : bool :=
  match chain (serverContent message) interrupted with
  | Some b => b
  | None => false
  end.

(** Truthiness of an optional string: defined and not empty. *)
Definition truthy (o : option string) : option string :=
  match o with
  | Some EmptyString => None
  | other => other
  end.

(** The text fragments a message carries, as the specification speaks of
    them: the non-empty texts of all the parts of its model turn, in order.
    [onmessage] does not compute this; it reads [firstText]. *)
Definition textFragments (message : LiveServerMessage) : list string :=
  match chain (chain (serverContent message) modelTurn) parts with
  | Some ps =>
      List.flat_map
        (fun p => match truthy (text p) with
                  | Some t => [t]
                  | None => []
                  end)
        ps
  | None => []
  end.

End Live.

(* ================================================================== *)
(** ** The interface of [services/audioUtils.ts] used by [App.tsx] *)
(* ================================================================== *)

(** [App.tsx] imports [base64ToUint8Array] and [decodeAudioData]; their
    source is not available, so the orchestrator is modelled over any
    implementation.  [None] stands for a thrown exception (a rejected promise
    for [decodeAudioData]).  The second argument of [decodeAudioData] is the
    audio context the buffer is created in. *)
Class AudioUtils := {
  base64ToUint8Array : string -> option (list Z);
  decodeAudioData :
    list Z -> nat -> positive -> positive -> option Codec.AudioBuffer
}.

(** The implementation the specification describes. *)
Definition specAudioUtils : AudioUtils := {|
  base64ToUint8Array := Codec.fromTransportText;
  decodeAudioData := fun bytes _ rate channels => Codec.decode bytes rate channels
|}.

(* ================================================================== *)
(** ** App.tsx: the session orchestrator *)
(* ================================================================== *)

Module App.

Import Codec.

(** types.ts *)
Inductive GamePhase := SETUP | PREPARING | READY | PLAYING | ENDED.

Record TriviaConfig := mkConfig { topic : string; personality : string }.

Record GeneratedQuestion := mkQuestion {
  question : string;
  answer : string;
  context : string
}.

Inductive Role := user | model.

Record TranscriptEntry := mkEntry { role : Role; text : string }.

(** How a handler completes: normally, or by an exception (for an [async]
    handler, a rejected promise). *)
Inductive Completion := Normal | Throw (name : string).

(** *** Browser objects *)

Record AudioContext := mkContext {
  ctxSampleRate : positive;
  ctxClosed : bool
}.

Inductive TrackState := live | ended.

Record MediaStream := mkStream { tracks : list TrackState }.

(** An [AudioBufferSourceNode]: the context that created it, its buffer,
    the time [start] was called with (if it was) and whether [stop] was
    called. *)
Record SourceNode := mkNode {
  nodeContext : nat;
  nodeBuffer : AudioBuffer;
  nodeStart : option Q;
  nodeStopped : bool
}.

(** A live session opened by [ai.live.connect]. *)
Record LiveSession := mkSession { sessionClosed : bool }.

(** *** State of the component: React state, refs, the stores of the
    browser objects the refs and closures point into, the number of calls of
    [startLiveSession] and of [handleEndGame] that are suspended at their
    [await], and the rejections of the promises that the code drops (the way
    a handler itself completes is its [Completion]).  [questions] is
    modelled at its declared type [GeneratedQuestion[]]; what is stored at
    run time is whatever [JSON.parse] returned. *)
Record AppState := mkState {
  phase : GamePhase;
  config : option TriviaConfig;
  questions : list GeneratedQuestion;
  error : option string;
  isConnected : bool;
  transcript : list TranscriptEntry;
  audioContextRef : option nat;
  streamRef : option nat;
  nextStartTimeRef : Q;
  sourcesRef : list nat;
  sessionRef : option nat;
  contexts : list AudioContext;
  streams : list MediaStream;
  nodes : list SourceNode;
  sessions : list LiveSession;
  pendingMicrophone : nat;
  pendingSummary : nat;
  unhandledRejections : list string
}.

(** State on mount: [useState] and [useRef] initial values; nothing is
    suspended and nothing was rejected. *)
Definition initial : AppState :=
  mkState SETUP None [] None false [] None None 0%Q [] None [] [] [] []
    0 0 [].

Definition setPhase (v : GamePhase) (s : AppState) : AppState :=
  mkState v (config s) (questions s) (error s) (isConnected s) (transcript
    s) (audioContextRef s) (streamRef s) (nextStartTimeRef s) (sourcesRef s)
    (sessionRef s) (contexts s) (streams s) (nodes s) (sessions s)
    (pendingMicrophone s) (pendingSummary s) (unhandledRejections s).

Definition setConfig (v : option TriviaConfig) (s : AppState) : AppState :=
  mkState (phase s) v (questions s) (error s) (isConnected s) (transcript s)
    (audioContextRef s) (streamRef s) (nextStartTimeRef s) (sourcesRef s)
    (sessionRef s) (contexts s) (streams s) (nodes s) (sessions s)
    (pendingMicrophone s) (pendingSummary s) (unhandledRejections s).

Definition setQuestions (v : list GeneratedQuestion) (s : AppState)
  : AppState :=
  mkState (phase s) (config s) v (error s) (isConnected s) (transcript s)
    (audioContextRef s) (streamRef s) (nextStartTimeRef s) (sourcesRef s)
    (sessionRef s) (contexts s) (streams s) (nodes s) (sessions s)
    (pendingMicrophone s) (pendingSummary s) (unhandledRejections s).

Definition setError (v : option string) (s : AppState) : AppState :=
  mkState (phase s) (config s) (questions s) v (isConnected s) (transcript
    s) (audioContextRef s) (streamRef s) (nextStartTimeRef s) (sourcesRef s)
    (sessionRef s) (contexts s) (streams s) (nodes s) (sessions s)
    (pendingMicrophone s) (pendingSummary s) (unhandledRejections s).

Definition setIsConnected (v : bool) (s : AppState) : AppState :=
  mkState (phase s) (config s) (questions s) (error s) v (transcript s)
    (audioContextRef s) (streamRef s) (nextStartTimeRef s) (sourcesRef s)
    (sessionRef s) (contexts s) (streams s) (nodes s) (sessions s)
    (pendingMicrophone s) (pendingSummary s) (unhandledRejections s).

Definition setTranscript (v : list TranscriptEntry) (s : AppState)
  : AppState :=
  mkState (phase s) (config s) (questions s) (error s) (isConnected s) v
    (audioContextRef s) (streamRef s) (nextStartTimeRef s) (sourcesRef s)
    (sessionRef s) (contexts s) (streams s) (nodes s) (sessions s)
    (pendingMicrophone s) (pendingSummary s) (unhandledRejections s).

Definition setAudioContextRef (v : option nat) (s : AppState) : AppState :=
  mkState (phase s) (config s) (questions s) (error s) (isConnected s)
    (transcript s) v (streamRef s) (nextStartTimeRef s) (sourcesRef s)
    (sessionRef s) (contexts s) (streams s) (nodes s) (sessions s)
    (pendingMicrophone s) (pendingSummary s) (unhandledRejections s).

Definition setStreamRef (v : option nat) (s : AppState) : AppState :=
  mkState (phase s) (config s) (questions s) (error s) (isConnected s)
    (transcript s) (audioContextRef s) v (nextStartTimeRef s) (sourcesRef s)
    (sessionRef s) (contexts s) (streams s) (nodes s) (sessions s)
    (pendingMicrophone s) (pendingSummary s) (unhandledRejections s).

Definition setNextStartTimeRef (v : Q) (s : AppState) : AppState :=
  mkState (phase s) (config s) (questions s) (error s) (isConnected s)
    (transcript s) (audioContextRef s) (streamRef s) v (sourcesRef s)
    (sessionRef s) (contexts s) (streams s) (nodes s) (sessions s)
    (pendingMicrophone s) (pendingSummary s) (unhandledRejections s).

Definition setSourcesRef (v : list nat) (s : AppState) : AppState :=
  mkState (phase s) (config s) (questions s) (error s) (isConnected s)
    (transcript s) (audioContextRef s) (streamRef s) (nextStartTimeRef s) v
    (sessionRef s) (contexts s) (streams s) (nodes s) (sessions s)
    (pendingMicrophone s) (pendingSummary s) (unhandledRejections s).

Definition setContexts (v : list AudioContext) (s : AppState) : AppState :=
  mkState (phase s) (config s) (questions s) (error s) (isConnected s)
    (transcript s) (audioContextRef s) (streamRef s) (nextStartTimeRef s)
    (sourcesRef s) (sessionRef s) v (streams s) (nodes s) (sessions s)
    (pendingMicrophone s) (pendingSummary s) (unhandledRejections s).

Definition setStreams (v : list MediaStream) (s : AppState) : AppState :=
  mkState (phase s) (config s) (questions s) (error s) (isConnected s)
    (transcript s) (audioContextRef s) (streamRef s) (nextStartTimeRef s)
    (sourcesRef s) (sessionRef s) (contexts s) v (nodes s) (sessions s)
    (pendingMicrophone s) (pendingSummary s) (unhandledRejections s).

Definition setNodes (v : list SourceNode) (s : AppState) : AppState :=
  mkState (phase s) (config s) (questions s) (error s) (isConnected s)
    (transcript s) (audioContextRef s) (streamRef s) (nextStartTimeRef s)
    (sourcesRef s) (sessionRef s) (contexts s) (streams s) v (sessions s)
    (pendingMicrophone s) (pendingSummary s) (unhandledRejections s).

Definition setSessions (v : list LiveSession) (s : AppState) : AppState :=
  mkState (phase s) (config s) (questions s) (error s) (isConnected s)
    (transcript s) (audioContextRef s) (streamRef s) (nextStartTimeRef s)
    (sourcesRef s) (sessionRef s) (contexts s) (streams s) (nodes s) v
    (pendingMicrophone s) (pendingSummary s) (unhandledRejections s).

Definition setPendingMicrophone (v : nat) (s : AppState) : AppState :=
  mkState (phase s) (config s) (questions s) (error s) (isConnected s)
    (transcript s) (audioContextRef s) (streamRef s) (nextStartTimeRef s)
    (sourcesRef s) (sessionRef s) (contexts s) (streams s) (nodes s)
    (sessions s) v (pendingSummary s) (unhandledRejections s).

Definition setPendingSummary (v : nat) (s : AppState) : AppState :=
  mkState (phase s) (config s) (questions s) (error s) (isConnected s)
    (transcript s) (audioContextRef s) (streamRef s) (nextStartTimeRef s)
    (sourcesRef s) (sessionRef s) (contexts s) (streams s) (nodes s)
    (sessions s) (pendingMicrophone s) v (unhandledRejections s).

Definition setUnhandledRejections (v : list string) (s : AppState)
  : AppState :=
  mkState (phase s) (config s) (questions s) (error s) (isConnected s)
    (transcript s) (audioContextRef s) (streamRef s) (nextStartTimeRef s)
    (sourcesRef s) (sessionRef s) (contexts s) (streams s) (nodes s)
    (sessions s) (pendingMicrophone s) (pendingSummary s) v.

(** *** Stores and the [Set] of registered sources *)

(** In-place update of the object at index [i]. *)
Fixpoint update {A : Type} (i : nat) (f : A -> A) (l : list A) : list A :=
  match l, i with
  | [], _ => []
  | x :: rest, O => f x :: rest
  | x :: rest, S j => x :: update j f rest
  end.

(** A JavaScript [Set] of references, in insertion order. *)
Definition setAdd (n : nat) (l : list nat) : list nat :=
  if List.existsb (Nat.eqb n) l then l else l ++ [n].

Definition setDelete (n : nat) (l : list nat) : list nat :=
  List.filter (fun m => negb (Nat.eqb m n)) l.

(** [track.stop()] on every track of a stream. *)
Definition stopTracks (m : MediaStream) : MediaStream :=
  mkStream (List.map (fun _ => ended) (tracks m)).

(** [AudioContext.close()], the effect on the context: it is closed
    afterwards. *)
Definition closeContext (c : AudioContext) : AudioContext :=
  mkContext (ctxSampleRate c) true.

(** [AudioContext.close()], the promise it returns: rejected with
    [InvalidStateError] when the context is already closed. *)
Definition closeRejects (c : AudioContext) : bool := ctxClosed c.

Definition closeSession (k : LiveSession) : LiveSession := mkSession true.

(** [source.stop()]: throws [InvalidStateError] when [start] was never
    called on the node; otherwise marks the node stopped. *)
Definition stopNode (i : nat) (ns : list SourceNode)
  : option (list SourceNode) :=
  match List.nth_error ns i with
  | Some n =>
      match nodeStart n with
      | Some _ =>
          Some (update i (fun n => mkNode (nodeContext n) (nodeBuffer n)
                                          (nodeStart n) true) ns)
      | None => None
      end
  | None => None
  end.

(** [sourcesRef.current.forEach(source => source.stop())]: in insertion
    order; an exception leaves the remaining sources untouched. *)
Fixpoint stopAll (ids : list nat) (ns : list SourceNode)
  : list SourceNode * Completion :=
  match ids with
  | [] => (ns, Normal)
  | i :: rest =>
      match stopNode i ns with
      | Some ns' => stopAll rest ns'
      | None => (ns, Throw "InvalidStateError")
      end
  end.

(** [audioContextRef.current.close()] as a statement (line 44): the context
    at [c] is closed and the promise is dropped, so that its rejection, if it
    rejects, is handled by nobody. *)
Definition closeAndDrop (c : nat) (s : AppState) : AppState :=
  let s' :=
    match List.nth_error (contexts s) c with
    | Some ctx =>
        if closeRejects ctx
        then setUnhandledRejections
               (unhandledRejections s ++ ["InvalidStateError"]) s
        else s
    | None => s
    end in
  setContexts (update c closeContext (contexts s')) s'.

(** *** [endSession] (App.tsx, lines 39-52) *)
Definition endSession (s : AppState) : AppState * Completion :=
  let s1 :=
    match streamRef s with
    | Some i => setStreams (update i stopTracks (streams s)) s
    | None => s
    end in
  let s2 :=
    match audioContextRef s1 with
    | Some c => closeAndDrop c s1
    | None => s1
    end in
  let s3 :=
    match sessionRef s2 with
    | Some k => setSessions (update k closeSession (sessions s2)) s2
    | None => s2
    end in
  match stopAll (sourcesRef s3) (nodes s3) with
  | (ns, Normal) =>
      (setIsConnected false (setSourcesRef [] (setNodes ns s3)), Normal)
  | (ns, Throw e) => (setNodes ns s3, Throw e)
  end.

(** *** [handleStart] (lines 54-72).  [generated] is the outcome of the
    awaited [generateQuestions] call: [None] when the promise rejects. *)
Definition handleStart (newConfig : TriviaConfig)
    (generated : option (list GeneratedQuestion)) (s : AppState) : AppState :=
  let s1 := setError None (setPhase PREPARING (setConfig (Some newConfig) s)) in
  match generated with
  | Some generatedQuestions =>
      setPhase READY (setQuestions generatedQuestions s1)
  | None =>
      setPhase SETUP
        (setError (Some "Failed to generate questions. Please try again.") s1)
  end.

(** Outcome of the awaited [navigator.mediaDevices.getUserMedia]. *)
Inductive MicOutcome := MicGranted | MicDenied.

(** *** [startLiveSession] (lines 74-221), without the callbacks, which are
    the handlers below.  The handler runs up to [await getUserMedia]
    (line 101): after the guard it shows the game screen, creates the two
    audio contexts and stores the output context; then it is suspended. *)
Definition startLiveSession (s : AppState) : AppState :=
  match config s, questions s with
  | None, _ => s
  | Some _, [] => s
  | Some _, _ :: _ =>
      let s1 := setPhase PLAYING s in
      let outputCtx := S (List.length (contexts s1)) in
      let s2 :=
        setContexts (contexts s1 ++ [mkContext 16000 false; mkContext 24000 false])
                    s1 in
      let s3 := setAudioContextRef (Some outputCtx) s2 in
      setPendingMicrophone (S (pendingMicrophone s3)) s3
  end.

(** [startLiveSession] from the answer of [getUserMedia] on (lines 102-220),
    for one of the suspended calls: granted, the stream is stored and
    [ai.live.connect] is called; refused, the [catch] shows the error and
    returns to the setup screen.  Without a suspended call there is nothing
    to resume. *)
Definition startLiveSession_resume (mic : MicOutcome) (s : AppState)
  : AppState :=
  match pendingMicrophone s with
  | O => s
  | S waiting =>
      let s3 := setPendingMicrophone waiting s in
      match mic with
      | MicGranted =>
          let stream := List.length (streams s3) in
          let s4 := setStreams (streams s3 ++ [mkStream [live]]) s3 in
          let s5 := setStreamRef (Some stream) s4 in
          setSessions (sessions s5 ++ [mkSession false]) s5
      | MicDenied =>
          setPhase SETUP
            (setError (Some "Microphone access denied or API error.") s3)
      end
  end.

(** *** The transport callbacks *)

(** [onopen] (lines 137-151). *)
Definition onopen (s : AppState) : AppState := setIsConnected true s.

(** [onclose] (lines 195-198). *)
Definition onclose (s : AppState) : AppState := setIsConnected false s.

(** [onerror] (lines 199-202). *)
Definition onerror (s : AppState) : AppState :=
  setError (Some "Connection error.") s.

(** [onmessage], "Handle Transcript" (lines 153-156). *)
Definition onmessage_transcript (message : Live.LiveServerMessage)
    (s : AppState) : AppState :=
  match Live.truthy (Live.firstText message) with
  | Some t => setTranscript (transcript s ++ [mkEntry model t]) s
  | None => s
  end.

(** [onmessage], "Handle Interruptions" (lines 185-189). *)
Definition onmessage_interrupted (s : AppState) : AppState * Completion :=
  match stopAll (sourcesRef s) (nodes s) with
  | (ns, Normal) =>
      (setNextStartTimeRef 0%Q (setSourcesRef [] (setNodes ns s)), Normal)
  | (ns, Throw e) => (setNodes ns s, Throw e)
  end.

Section Handlers.

Context {audioUtils : AudioUtils}.

(** [onmessage], "Handle Audio Output" (lines 159-182), for a truthy
    [base64Audio].  [outputCtx] is the context captured by the closure and
    [currentTime] its clock reading. *)
Definition onmessage_audio (outputCtx : nat) (base64Audio : string)
    (currentTime : Q) (s : AppState) : AppState * Completion :=
  let s1 := setNextStartTimeRef (Qmax (nextStartTimeRef s) currentTime) s in
  match base64ToUint8Array base64Audio with
  | None => (s1, Throw "InvalidCharacterError")
  | Some bytes =>
      match decodeAudioData bytes outputCtx 24000 1 with
      | None => (s1, Throw "DecodeError")
      | Some audioBuffer =>
          let sourceNode := List.length (nodes s1) in
          let s2 :=
            setNodes (nodes s1 ++ [mkNode outputCtx audioBuffer
                                          (Some (nextStartTimeRef s1)) false])
                     s1 in
          let s3 :=
            setNextStartTimeRef
              (nextStartTimeRef s2 + duration audioBuffer)%Q s2 in
          (setSourcesRef (setAdd sourceNode (sourcesRef s3)) s3, Normal)
      end
  end.

(** [onmessage] (lines 152-194).  The continuation after the [await] runs
    before the next transport event is delivered, so one message is one
    step. *)
Definition onmessage (outputCtx : nat) (message : Live.LiveServerMessage)
    (currentTime : Q) (s : AppState) : AppState * Completion :=
  let s1 := onmessage_transcript message s in
  let audio :=
    match Live.truthy (Live.firstInlineData message) with
    | Some base64Audio => onmessage_audio outputCtx base64Audio currentTime s1
    | None => (s1, Normal)
    end in
  match audio with
  | (s2, Normal) =>
      if Live.isInterrupted message then onmessage_interrupted s2
      else (s2, Normal)
  | (s2, Throw e) => (s2, Throw e)
  end.

(** [sourceNode.onended] (line 181). *)
Definition onended (sourceNode : nat) (s : AppState) : AppState :=
  setSourcesRef (setDelete sourceNode (sourcesRef s)) s.

(** *** [generateSummarySpeech] (services/geminiService.ts, lines 63-94),
    from the answer of the model call on.  [response] is [None] when the call
    rejects, and otherwise
    [response.candidates?.[0]?.content?.parts?.[0]?.inlineData?.data].
    Everything is inside a [try]: a rejected call, a missing payload and a
    payload that does not decode all give [null]; the audio context to
    decode into is opened once there is a payload, and never closed. *)
Definition generateSummarySpeech (response : option (option string))
    (s : AppState) : AppState * option AudioBuffer :=
  match response with
  | None => (s, None)
  | Some data =>
      match Live.truthy data with
      | None => (s, None)
      | Some base64Audio =>
          let outputAudioContext := List.length (contexts s) in
          let s1 := setContexts (contexts s ++ [mkContext 24000 false]) s in
          match base64ToUint8Array base64Audio with
          | None => (s1, None)
          | Some bytes =>
              (s1, decodeAudioData bytes outputAudioContext 24000 1)
          end
      end
  end.

(** *** [handleEndGame] (lines 223-239), up to
    [await generateSummarySpeech] (line 229): the session is ended, the end
    screen is shown and, when there are questions, the summary is requested
    and the handler is suspended. *)
Definition handleEndGame (s : AppState) : AppState * Completion :=
  match endSession s with
  | (s1, Throw e) => (s1, Throw e)
  | (s1, Normal) =>
      let s2 := setPhase ENDED s1 in
      match questions s2 with
      | _ :: _ => (setPendingSummary (S (pendingSummary s2)) s2, Normal)
      | [] => (s2, Normal)
      end
  end.

(** [handleEndGame] from the answer of the summary call on (lines 229-237),
    for one of the suspended calls: a summary that was decoded is played on
    one more audio context, provided [audioContextRef] is set.  Without a
    suspended call there is nothing to resume. *)
Definition handleEndGame_resume (response : option (option string))
    (s : AppState) : AppState :=
  match pendingSummary s with
  | O => s
  | S waiting =>
      match generateSummarySpeech response (setPendingSummary waiting s) with
      | (s1, Some buffer) =>
          match audioContextRef s1 with
          | Some _ =>
              let ctx := List.length (contexts s1) in
              let s2 :=
                setContexts (contexts s1 ++ [mkContext 24000 false]) s1 in
              setNodes (nodes s2 ++ [mkNode ctx buffer (Some 0%Q) false]) s2
          | None => s1
          end
      | (s1, None) => s1
      end
  end.

(** *** Events and runs *)

Inductive Event :=
| EvHandleStart (newConfig : TriviaConfig)
                (generated : option (list GeneratedQuestion))
| EvStartLiveSession
| EvMicrophone (mic : MicOutcome)
| EvOpen
| EvMessage (outputCtx : nat) (message : Live.LiveServerMessage)
            (currentTime : Q)
| EvClose
| EvError
| EvEnded (sourceNode : nat)
| EvEndGame
| EvSummary (response : option (option string))
| EvPlayAgain
| EvUnmount.

(** One event; the state reached is kept whichever way the handler
    completes (an exception in a handler does not undo its effects). *)
Definition step (s : AppState) (e : Event) : AppState :=
  match e with
  | EvHandleStart newConfig generated => handleStart newConfig generated s
  | EvStartLiveSession => startLiveSession s
  | EvMicrophone mic => startLiveSession_resume mic s
  | EvOpen => onopen s
  | EvMessage outputCtx message currentTime =>
      fst (onmessage outputCtx message currentTime s)
  | EvClose => onclose s
  | EvError => onerror s
  | EvEnded sourceNode => onended sourceNode s
  | EvEndGame => fst (handleEndGame s)
  | EvSummary response => handleEndGame_resume response s
  | EvPlayAgain => setPhase SETUP s
  | EvUnmount => fst (endSession s)
  end.

Definition run (events : list Event) (s : AppState) : AppState :=
  List.fold_left step events s.

(** States the component can be in: those a run from the mount state
    reaches. *)
Definition reachable (s : AppState) : Prop :=
  exists events, run events initial = s.

End Handlers.

End App.

(* ================================================================== *)
(** ** JSON values and [JSON.parse] *)
(* ================================================================== *)

Module Json.

(** A parsed JSON value.  A number is kept as its lexeme. *)
Inductive JSON :=
| JNull
| JBool (b : bool)
| JNumber (lexeme : string)
| JString (s : string)
| JArray (elements : list JSON)
| JObject (members : list (string * JSON)).

(** [JSON.parse]: [None] stands for the [SyntaxError] it throws. *)
Class JsonRuntime := { JSON_parse : string -> option JSON }.

(** *** A reference parser for the JSON grammar (ECMA-404), used to run the
    service on concrete responses.  Strings are sequences of code units below
    256; a [\u] escape denoting a larger code unit is outside this model and
    is rejected. *)

Definition isJsonSpace (c : ascii) : bool :=
  match nat_of_ascii c with
  | 9%nat | 10%nat | 13%nat | 32%nat => true
  | _ => false
  end.

Fixpoint skipSpace (s : string) : string :=
  match s with
  | String c rest => if isJsonSpace c then skipSpace rest else s
  | EmptyString => s
  end.

Definition isDigit (c : ascii) : bool :=
  let n := nat_of_ascii c in (48 <=? n)%nat && (n <=? 57)%nat.

(** Longest run of digits at the head of [s], and what follows it. *)
Fixpoint digits (s : string) : string * string :=
  match s with
  | String c rest =>
      if isDigit c then let (d, r) := digits rest in (String c d, r)
      else (EmptyString, s)
  | EmptyString => (EmptyString, s)
  end.

Definition hexValue (c : ascii) : option nat :=
  let n := nat_of_ascii c in
  if (48 <=? n)%nat && (n <=? 57)%nat then Some (n - 48)%nat
  else if (65 <=? n)%nat && (n <=? 70)%nat then Some (n - 55)%nat
  else if (97 <=? n)%nat && (n <=? 102)%nat then Some (n - 87)%nat
  else None.

(** The integer part: [0] or a non-zero digit followed by digits. *)
Definition intPart (s : string) : option (string * string) :=
  match digits s with
  | (EmptyString, _) => None
  | (String "0" EmptyString, r) => Some ("0", r)
  | (String "0" _, _) => None
  | (d, r) => Some (d, r)
  end.

Definition fracPart (s : string) : option (string * string) :=
  match s with
  | String "." rest =>
      match digits rest with
      | (EmptyString, _) => None
      | (d, r) => Some (String "." d, r)
      end
  | _ => Some (EmptyString, s)
  end.

Definition expDigits (e : string) (s : string) : option (string * string) :=
  match digits s with
  | (EmptyString, _) => None
  | (d, r) => Some (e ++ d, r)
  end%string.

Definition expPart (s : string) : option (string * string) :=
  match s with
  | String "e" (String "+" rest) => expDigits "e+" rest
  | String "e" (String "-" rest) => expDigits "e-" rest
  | String "e" rest => expDigits "e" rest
  | String "E" (String "+" rest) => expDigits "E+" rest
  | String "E" (String "-" rest) => expDigits "E-" rest
  | String "E" rest => expDigits "E" rest
  | _ => Some (EmptyString, s)
  end.

Definition parseUnsigned (s : string) : option (string * string) :=
  match intPart s with
  | Some (i, r1) =>
      match fracPart r1 with
      | Some (f, r2) =>
          match expPart r2 with
          | Some (e, r3) => Some ((i ++ f ++ e)%string, r3)
          | None => None
          end
      | None => None
      end
  | None => None
  end.

Definition parseNumber (s : string) : option (string * string) :=
  match s with
  | String "-" rest =>
      match parseUnsigned rest with
      | Some (n, r) => Some (String "-" n, r)
      | None => None
      end
  | _ => parseUnsigned s
  end.

(** The quotation mark (code unit 34). *)
Abbreviation quote := (Ascii false true false false false true false false).

(** The characters of a string literal after its opening quote, up to and
    including the closing quote. *)
Fixpoint parseChars (s : string) : option (string * string) :=
  match s with
  | EmptyString => None
  | String quote rest => Some (EmptyString, rest)
  | String "\" (String "u" (String a (String b (String c (String d rest))))) =>
      match hexValue a, hexValue b, hexValue c, hexValue d with
      | Some 0%nat, Some 0%nat, Some h, Some l =>
          match parseChars rest with
          | Some (t, r) => Some (String (ascii_of_nat (16 * h + l)) t, r)
          | None => None
          end
      | _, _, _, _ => None
      end
  | String "\" (String e rest) =>
      let unescaped :=
        match e with
        | quote => Some quote
        | "\"%char => Some "\"%char
        | "/"%char => Some "/"%char
        | "b"%char => Some (ascii_of_nat 8)
        | "f"%char => Some (ascii_of_nat 12)
        | "n"%char => Some (ascii_of_nat 10)
        | "r"%char => Some (ascii_of_nat 13)
        | "t"%char => Some (ascii_of_nat 9)
        | _ => None
        end in
      match unescaped, parseChars rest with
      | Some c, Some (t, r) => Some (String c t, r)
      | _, _ => None
      end
  | String c rest =>
      if (nat_of_ascii c <? 32)%nat then None
      else
        match parseChars rest with
        | Some (t, r) => Some (String c t, r)
        | None => None
        end
  end.

Definition startsWith (p s : string) : option string :=
  if String.prefix p s
  then Some (String.substring (String.length p)
                              (String.length s - String.length p) s)
  else None.

(** A value, the remaining elements of an array after its first value, and
    the remaining members of an object; [fuel] bounds the number of nested
    calls. *)
Fixpoint parseValue (fuel : nat) (s : string) : option (JSON * string) :=
  match fuel with
  | O => None
  | S fuel' =>
      match skipSpace s with
      | String "[" rest =>
          match skipSpace rest with
          | String "]" rest' => Some (JArray [], rest')
          | _ => parseElements fuel' rest []
          end
      | String "{" rest =>
          match skipSpace rest with
          | String "}" rest' => Some (JObject [], rest')
          | _ => parseMembers fuel' rest []
          end
      | String quote rest =>
          match parseChars rest with
          | Some (t, r) => Some (JString t, r)
          | None => None
          end
      | String _ _ as s' =>
          match startsWith "null" s', startsWith "true" s',
                startsWith "false" s' with
          | Some r, _, _ => Some (JNull, r)
          | _, Some r, _ => Some (JBool true, r)
          | _, _, Some r => Some (JBool false, r)
          | _, _, _ =>
              match parseNumber s' with
              | Some (n, r) => Some (JNumber n, r)
              | None => None
              end
          end
      | EmptyString => None
      end
  end

with parseElements (fuel : nat) (s : string) (acc : list JSON)
  : option (JSON * string) :=
  match fuel with
  | O => None
  | S fuel' =>
      match parseValue fuel' s with
      | Some (v, r) =>
          match skipSpace r with
          | String "," r' => parseElements fuel' r' (v :: acc)
          | String "]" r' => Some (JArray (List.rev (v :: acc)), r')
          | _ => None
          end
      | None => None
      end
  end

with parseMembers (fuel : nat) (s : string) (acc : list (string * JSON))
  : option (JSON * string) :=
  match fuel with
  | O => None
  | S fuel' =>
      match skipSpace s with
      | String quote rest =>
          match parseChars rest with
          | Some (key, r) =>
              match skipSpace r with
              | String ":" r1 =>
                  match parseValue fuel' r1 with
                  | Some (v, r2) =>
                      match skipSpace r2 with
                      | String "," r3 =>
                          parseMembers fuel' r3 ((key, v) :: acc)
                      | String "}" r3 =>
                          Some (JObject (List.rev ((key, v) :: acc)), r3)
                      | _ => None
                      end
                  | None => None
                  end
              | _ => None
              end
          | None => None
          end
      | _ => None
      end
  end.

Definition parse (text : string) : option JSON :=
  match parseValue (2 * String.length text + 2) text with
  | Some (v, rest) =>
      match skipSpace rest with
      | EmptyString => Some v
      | _ => None
      end
  | None => None
  end.

Definition referenceRuntime : JsonRuntime := {| JSON_parse := parse |}.

End Json.

(* ================================================================== *)
(** ** services/geminiService.ts: [generateQuestions] *)
(* ================================================================== *)

Module GeminiService.

Import Json.

(** *** The regular expression [/```json\s*([\s\S]*?)\s*```/] as a
    backtracking matcher in continuation-passing style: every combinator
    takes the matcher of the rest of the pattern and tries its own
    alternatives in the order of the regular expression semantics. *)

(** [\s], for code units below 256. *)
Definition isSpace (c : ascii) : bool :=
  match nat_of_ascii c with
  | 9%nat | 10%nat | 11%nat | 12%nat | 13%nat | 32%nat | 160%nat => true
  | _ => false
  end.

(** [[\s\S]] *)
Definition anyChar (c : ascii) : bool := true.

Section Matcher.

Variable R : Type.

(** A literal. *)
Definition lit (p : string) (k : string -> option R) (s : string)
  : option R :=
  match startsWith p s with
  | Some rest => k rest
  | None => None
  end.

(** [cls*]: as many characters as possible first, then fewer. *)
Fixpoint greedyStar (cls : ascii -> bool) (k : string -> option R)
    (s : string) : option R :=
  match s with
  | String c rest =>
      if cls c then
        match greedyStar cls k rest with
        | Some r => Some r
        | None => k s
        end
      else k s
  | EmptyString => k s
  end.

(** [(cls*?)]: as few characters as possible first, then more; the
    continuation receives the characters matched. *)
Fixpoint lazyStar (cls : ascii -> bool) (k : string -> string -> option R)
    (matched : string) (s : string) : option R :=
  match k matched s with
  | Some r => Some r
  | None =>
      match s with
      | String c rest =>
          if cls c then lazyStar cls k (matched ++ String c EmptyString) rest
          else None
      | EmptyString => None
      end
  end.

(** An unanchored match: the leftmost start position that matches. *)
Fixpoint search (m : string -> option R) (s : string) : option R :=
  match m s with
  | Some r => Some r
  | None =>
      match s with
      | String _ rest => search m rest
      | EmptyString => None
      end
  end.

End Matcher.

(** [text.match(/```json\s*([\s\S]*?)\s*```/)]: [None] when there is no
    match, otherwise the capture group [jsonMatch[1]]. *)
Definition matchJsonFence (text : string) : option string :=
  search string
    (lit string "```json"
      (greedyStar string isSpace
        (lazyStar string anyChar
          (fun captured =>
             greedyStar string isSpace
               (lit string "```" (fun _ => Some captured)))
          EmptyString)))
    text.

(** The part of a [GenerateContentResponse] the service reads:
    [response.text] and
    [response.candidates?.[0]?.groundingMetadata?.groundingChunks]. *)
Record GenerateContentResponse := mkResponse {
  text : option string;
  groundingChunks : option (list JSON)
}.

(** What the service resolves to.  [questions] is declared
    [GeneratedQuestion[]] but holds whatever [JSON.parse] returned. *)
Record Generated := mkGenerated {
  questions : JSON;
  sources : list JSON
}.

(** [response.text], or the empty string when it is undefined or empty. *)
Definition responseText (response : GenerateContentResponse) : string :=
  match text response with
  | Some t => t
  | None => EmptyString
  end.

Definition fallbackQuestion (topic : string) : JSON :=
  JObject
    [ ("question",
       JString ("I couldn't auto-generate specific questions about " ++ topic
                ++ ", but let's play anyway! What is the main thing you know about "
                ++ topic ++ "?")%string);
      ("answer", JString "N/A");
      ("context", JString "Sometimes even AI has a hiccup!") ].

Section Service.

Context {runtime : JsonRuntime}.

(** The [try] block (lines 41-48): the text handed to [JSON.parse]. *)
Definition jsonSource (text : string) : string :=
  match matchJsonFence text with
  | Some (String c rest) => String c rest
  | _ => text
  end.

(** [generateQuestions] (lines 8-60).  [response] is the outcome of the
    awaited model call; [None] (the call rejects) makes the service reject. *)
Definition generateQuestions (topic : string)
    (response : option GenerateContentResponse) : option Generated :=
  match response with
  | None => None
  | Some response =>
      let sources :=
        match groundingChunks response with
        | Some chunks => chunks
        | None => []
        end in
      let text := responseText response in
      let questions :=
        match JSON_parse (jsonSource text) with
        | Some parsed => parsed
        | None => JArray [fallbackQuestion topic]
        end in
      Some (mkGenerated questions sources)
  end.

End Service.

(** [questions.length], for a value that is an array. *)
Definition questionCount (v : JSON) : option nat :=
  match v with
  | JArray elements => Some (List.length elements)
  | _ => None
  end.

End GeminiService.

(* ================================================================== *)
(** ** Vocabulary of the properties, and scenarios *)
(* ================================================================== *)

Module Props.

Import Codec App.

(** Every source in the registry exists and had [start] called on it. *)
Definition registryStarted (s : AppState) : bool :=
  List.forallb
    (fun i =>
       match List.nth_error (nodes s) i with
       | Some n => match nodeStart n with Some _ => true | None => false end
       | None => false
       end)
    (sourcesRef s).

(** Whether [stop] was called on the source [i]. *)
Definition stopped (s : AppState) (i : nat) : bool :=
  match List.nth_error (nodes s) i with
  | Some n => nodeStopped n
  | None => false
  end.

(** Source [i] of a store exists and was started; exists and was stopped. *)
Definition started (ns : list SourceNode) (i : nat) : Prop :=
  exists n, List.nth_error ns i = Some n /\ nodeStart n <> None.

Definition stoppedIn (ns : list SourceNode) (i : nat) : Prop :=
  exists n, List.nth_error ns i = Some n /\ nodeStopped n = true.

(** The references released by [endSession], before the sources are
    stopped. *)
Definition released (s : AppState) : AppState :=
  let s1 :=
    match streamRef s with
    | Some i => setStreams (update i stopTracks (streams s)) s
    | None => s
    end in
  let s2 :=
    match audioContextRef s1 with
    | Some c => closeAndDrop c s1
    | None => s1
    end in
  match sessionRef s2 with
  | Some k => setSessions (update k closeSession (sessions s2)) s2
  | None => s2
  end.

(** Every source in the registry exists and was started. *)
Definition registryOk (s : AppState) : Prop :=
  forall i, List.In i (sourcesRef s) -> started (nodes s) i.

(** The time the source [i] was scheduled at. *)
Definition startAt (s : AppState) (i : nat) : option Q :=
  match List.nth_error (nodes s) i with
  | Some n => nodeStart n
  | None => None
  end.

(** The transcript entries a sequence of events delivers, in the order of
    receipt: one for every message whose first part carries text. *)
Definition receivedTexts (events : list Event) : list TranscriptEntry :=
  List.flat_map
    (fun e =>
       match e with
       | EvMessage _ message _ =>
           match Live.truthy (Live.firstText message) with
           | Some t => [mkEntry model t]
           | None => []
           end
       | _ => []
       end)
    events.

(** Events raised by the transport and by the audio graph, as opposed to
    the user's actions. *)
Definition isTransportEvent (e : Event) : bool :=
  match e with
  | EvOpen | EvMessage _ _ _ | EvClose | EvError | EvEnded _ => true
  | _ => false
  end.

(** The buffer an inline payload decodes to; [None] when
    [base64ToUint8Array] or [decodeAudioData] throws. *)
Definition decodePayload {audioUtils : AudioUtils} (outputCtx : nat)
    (base64Audio : string) : option AudioBuffer :=
  match base64ToUint8Array base64Audio with
  | Some bytes => decodeAudioData bytes outputCtx 24000 1
  | None => None
  end.

(** Whether the output context [c] and the capture stream [i] are released. *)
Definition contextClosed (s : AppState) (c : nat) : bool :=
  match List.nth_error (contexts s) c with
  | Some ctx => ctxClosed ctx
  | None => false
  end.

Definition streamStopped (s : AppState) (i : nat) : bool :=
  match List.nth_error (streams s) i with
  | Some m =>
      List.forallb
        (fun t => match t with ended => true | live => false end) (tracks m)
  | None => false
  end.

(** The lifecycle and the resources: phase, connection flag, error banner,
    references and stores of contexts, streams and sessions. *)
Definition sameLifecycle (s s' : AppState) : Prop :=
  phase s' = phase s /\ isConnected s' = isConnected s /\
  error s' = error s /\ config s' = config s /\
  questions s' = questions s.

Definition sameResources (s s' : AppState) : Prop :=
  audioContextRef s' = audioContextRef s /\ streamRef s' = streamRef s /\
  sessionRef s' = sessionRef s /\ contexts s' = contexts s /\
  streams s' = streams s /\ sessions s' = sessions s.

Definition sameSession (s s' : AppState) : Prop :=
  sameLifecycle s s' /\ sameResources s s'.

(** What is neither lifecycle nor resource: the game data, the transcript,
    the playback schedule, the suspended handlers and the rejections that
    nobody handled. *)
Definition sameGame (s s' : AppState) : Prop :=
  config s' = config s /\ questions s' = questions s /\
  transcript s' = transcript s /\
  nextStartTimeRef s' = nextStartTimeRef s /\
  sourcesRef s' = sourcesRef s /\ nodes s' = nodes s /\
  pendingMicrophone s' = pendingMicrophone s /\
  pendingSummary s' = pendingSummary s /\
  unhandledRejections s' = unhandledRejections s.

End Props.

Module Scenario.

Import Codec App.

(** Messages carrying one audio fragment, one text fragment, or only the
    interruption flag. *)
Definition audioMessage (base64Audio : string) : Live.LiveServerMessage :=
  Live.mkMessage
    (Some (Live.mkServerContent
             (Some (Live.mkContent
                      (Some [Live.mkPart None
                               (Some (Live.mkBlob (Some base64Audio)))])))
             None)).

Definition textMessage (t : string) : Live.LiveServerMessage :=
  Live.mkMessage
    (Some (Live.mkServerContent
             (Some (Live.mkContent (Some [Live.mkPart (Some t) None])))
             None)).

Definition interruptedMessage : Live.LiveServerMessage :=
  Live.mkMessage (Some (Live.mkServerContent None (Some true))).

(** A message of two parts: the first one empty, the second one carrying
    the text [t]. *)
Definition laterTextMessage (t : string) : Live.LiveServerMessage :=
  Live.mkMessage
    (Some (Live.mkServerContent
             (Some (Live.mkContent
                      (Some [Live.mkPart None None;
                             Live.mkPart (Some t) None])))
             None)).

(** A stand-in for audioUtils whose payloads ["B1"] and ["B2"] decode to
    buffers lasting 1 s and 0.5 s; any other payload is rejected. *)
Definition toneAudioUtils : AudioUtils := {|
  base64ToUint8Array := fun payload =>
    if String.eqb payload "B1" then Some [1]
    else if String.eqb payload "B2" then Some [2]
    else None;
  decodeAudioData := fun bytes _ _ _ =>
    match bytes with
    | [1] => Some (mkAudioBuffer 2 1 [0; 0]%Q)
    | [2] => Some (mkAudioBuffer 2 1 [0]%Q)
    | _ => None
    end
|}.

Definition catsConfig : TriviaConfig := mkConfig "cats" "cheerful".

Definition catsQuestion : GeneratedQuestion := mkQuestion "Q" "A" "C".

(** Questions generated, "Connect" not yet clicked. *)
Definition ready : AppState :=
  run (audioUtils := specAudioUtils)
    [EvHandleStart catsConfig (Some [catsQuestion])] initial.

(** A live session: microphone granted, transport open.  The output context
    of the session is context 1. *)
Definition connected : AppState :=
  run (audioUtils := specAudioUtils)
    [EvStartLiveSession; EvMicrophone MicGranted; EvOpen] ready.

(** Three fragments of three silent frames each, received at clock 0. *)
Definition threePlaying : AppState :=
  run (audioUtils := specAudioUtils)
    [EvMessage 1 (audioMessage "AAAAAAAA") 0%Q;
     EvMessage 1 (audioMessage "AAAAAAAA") 0%Q;
     EvMessage 1 (audioMessage "AAAAAAAA") 0%Q] connected.

(** The same session under [toneAudioUtils], after the one-second buffer
    ["B1"] was received at clock 0. *)
Definition tonePlaying : AppState :=
  run (audioUtils := toneAudioUtils)
    [EvMessage 1 (audioMessage "B1") 0%Q] connected.

(** The user ends that game, plays again and connects; the new session has
    a fresh output context (context 3), whose clock starts at 0. *)
Definition secondSession : AppState :=
  run (audioUtils := toneAudioUtils)
    [EvEndGame; EvSummary None; EvPlayAgain;
     EvHandleStart catsConfig (Some [catsQuestion]);
     EvStartLiveSession; EvMicrophone MicGranted; EvOpen] tonePlaying.

End Scenario.

(* ================================================================== *)
(** ** components/SetupScreen.tsx: the setup form *)
(* ================================================================== *)

Module SetupScreen.

Record Personality := mkPersonality {
  id : string;
  name : string;
  desc : string
}.

Definition PERSONALITIES : list Personality :=
  [ mkPersonality "enthusiastic" "Enthusiastic Host"
      "High energy, super encouraging!";
    mkPersonality "sarcastic" "Sarcastic Robot"
      "Dry wit, mild roasting included.";
    mkPersonality "dramatic" "Dramatic Narrator"
      "Treats every question like a movie trailer.";
    mkPersonality "professor" "Strict Professor"
      "Demands precision, offers detailed facts." ].

(** The two pieces of [useState] of the form. *)
Record FormState := mkForm { topic : string; personality : string }.

(** [useState('Space Exploration')] and [useState(PERSONALITIES[0].id)]. *)
Definition initial : FormState :=
  mkForm "Space Exploration"
    match PERSONALITIES with
    | p :: _ => id p
    | [] => EmptyString
    end.

(** What the user can do before submitting: type in the topic field
    ([onChange]) or click the button rendered for the entry [button] of
    [PERSONALITIES] (there is no button for an index out of range). *)
Inductive FormEvent :=
| ChangeTopic (value : string)
| ClickPersonality (button : nat).

Definition step (s : FormState) (e : FormEvent) : FormState :=
  match e with
  | ChangeTopic value => mkForm value (personality s)
  | ClickPersonality button =>
      match List.nth_error PERSONALITIES button with
      | Some p => mkForm (topic s) (id p)
      | None => s
      end
  end.

Definition run (events : list FormEvent) (s : FormState) : FormState :=
  List.fold_left step events s.

(** [handleSubmit] (lines 20-25): the configuration [onStart] is called
    with, or [None] when it is not called. *)
Definition handleSubmit (s : FormState) : option App.TriviaConfig :=
  match topic s, personality s with
  | EmptyString, _ => None
  | _, EmptyString => None
  | _, _ => Some (App.mkConfig (topic s) (personality s))
  end.

End SetupScreen.

(* ================================================================== *)
(** ** Invariants of the orchestrator, and shapes of response texts *)
(* ================================================================== *)

Module Invariants.

Import Codec App Props.

(** The registry holds no source twice, and each of its sources exists, was
    started and was not stopped. *)
Definition registryLive (s : AppState) : Prop :=
  List.NoDup (sourcesRef s) /\
  forall i, List.In i (sourcesRef s) ->
    exists n, List.nth_error (nodes s) i = Some n /\
              nodeStart n <> None /\ nodeStopped n = false.

(** The time at which the source [i] finishes playing its buffer. *)
Definition sourceEnd (s : AppState) (i : nat) : option Q :=
  match List.nth_error (nodes s) i with
  | Some n =>
      match nodeStart n with
      | Some t => Some (t + duration (nodeBuffer n))%Q
      | None => None
      end
  | None => None
  end.

(** No registered source plays beyond [nextStartTime], and of two registered
    sources the one created first ends before the other starts. *)
Definition noOverlap (s : AppState) : Prop :=
  (forall i e, List.In i (sourcesRef s) -> sourceEnd s i = Some e ->
               (e <= nextStartTimeRef s)%Q) /\
  (forall i j e t, List.In i (sourcesRef s) -> List.In j (sourcesRef s) ->
                   (i < j)%nat ->
                   sourceEnd s i = Some e -> startAt s j = Some t ->
                   (e <= t)%Q).

(** The registry is well formed and its sources do not overlap. *)
Definition scheduled (s : AppState) : Prop := registryOk s /\ noOverlap s.

(** [nextStartTime] and every time a source was started at are not
    negative. *)
Definition timesNonneg (s : AppState) : Prop :=
  (0 <= nextStartTimeRef s)%Q /\
  forall i t, startAt s i = Some t -> (0 <= t)%Q.

(** No session object is held, and every live session opened is open. *)
Definition sessionsOpen (s : AppState) : Prop :=
  sessionRef s = None /\
  List.Forall (fun k => sessionClosed k = false) (sessions s).

(** The references point into the stores: the audio context reference at a
    24 kHz context, the stream reference at a stream; and every 16 kHz
    context is open. *)
Definition refsValid (s : AppState) : Prop :=
  (forall c, audioContextRef s = Some c ->
     exists ctx, List.nth_error (contexts s) c = Some ctx /\
                 ctxSampleRate ctx = 24000%positive) /\
  (forall i, streamRef s = Some i -> (i < List.length (streams s))%nat) /\
  List.Forall
    (fun ctx => ctxSampleRate ctx = 16000%positive -> ctxClosed ctx = false)
    (contexts s).


End Invariants.

Module Fence.

(** Shapes of the pieces of a response text around a fenced block. *)

Definition isBacktick (c : ascii) : bool := Ascii.eqb c "`".

Fixpoint noBacktick (s : string) : bool :=
  match s with
  | EmptyString => true
  | String c rest => negb (isBacktick c) && noBacktick rest
  end.

Fixpoint allSpace (s : string) : bool :=
  match s with
  | EmptyString => true
  | String c rest => GeminiService.isSpace c && allSpace rest
  end.

Definition firstNonSpace (s : string) : bool :=
  match s with
  | EmptyString => false
  | String c _ => negb (GeminiService.isSpace c)
  end.

Fixpoint lastNonSpace (s : string) : bool :=
  match s with
  | EmptyString => false
  | String c EmptyString => negb (GeminiService.isSpace c)
  | String _ rest => lastNonSpace rest
  end.

(** A body as the fence keeps it: not empty, without a backtick, and
    without white space at either end. *)
Definition trimmedBody (body : string) : bool :=
  noBacktick body && firstNonSpace body && lastNonSpace body.

End Fence.

Module Sessions.

Import Codec App.

(** A message carrying one audio fragment together with the interruption
    flag. *)
Definition audioInterruptedMessage (base64Audio : string)
  : Live.LiveServerMessage :=
  Live.mkMessage
    (Some (Live.mkServerContent
             (Some (Live.mkContent
                      (Some [Live.mkPart None
                               (Some (Live.mkBlob (Some base64Audio)))])))
             (Some true))).

(** The events that lead to [Scenario.threePlaying] and to
    [Scenario.secondSession] from the mount state. *)
Definition threePlayingEvents : list Event :=
  [EvHandleStart Scenario.catsConfig (Some [Scenario.catsQuestion]);
   EvStartLiveSession; EvMicrophone MicGranted; EvOpen;
   EvMessage 1 (Scenario.audioMessage "AAAAAAAA") 0%Q;
   EvMessage 1 (Scenario.audioMessage "AAAAAAAA") 0%Q;
   EvMessage 1 (Scenario.audioMessage "AAAAAAAA") 0%Q].

Definition secondSessionEvents : list Event :=
  [EvHandleStart Scenario.catsConfig (Some [Scenario.catsQuestion]);
   EvStartLiveSession; EvMicrophone MicGranted; EvOpen;
   EvMessage 1 (Scenario.audioMessage "B1") 0%Q;
   EvEndGame; EvSummary None; EvPlayAgain;
   EvHandleStart Scenario.catsConfig (Some [Scenario.catsQuestion]);
   EvStartLiveSession; EvMicrophone MicGranted; EvOpen].

End Sessions.

(* ================================================================== *)
(** * Properties *)
(* ================================================================== *)

(** ** The PCM codec *)

Module CodecFacts.

Import Codec.

Local Open Scope Q_scope.

(** Truncation moves a rational towards zero by less than one. *)
Lemma truncate_nonneg (q : Q) :
  0 <= q -> inject_Z (truncate q) <= q /\ q < inject_Z (truncate q) + 1.
Proof.
  destruct q as [n d]. unfold truncate, Qle, Qlt, inject_Z; simpl.
  intros Hn. rewrite Z.mul_1_r in Hn.
  rewrite Z.quot_div_nonneg by lia.
  pose proof (Z.div_mod n (Zpos d) ltac:(lia)) as E.
  pose proof (Z.mod_pos_bound n (Zpos d) ltac:(lia)) as B.
  split; nia.
Qed.

Lemma truncate_nonpos (q : Q) :
  q <= 0 -> q <= inject_Z (truncate q) /\ inject_Z (truncate q) - 1 < q.
Proof.
  destruct q as [n d]. unfold truncate, Qle, Qlt, inject_Z; simpl.
  intros Hn. rewrite Z.mul_1_r in Hn.
  replace n with (- (- n))%Z by lia.
  rewrite Z.quot_opp_l by lia.
  rewrite Z.quot_div_nonneg by lia.
  pose proof (Z.div_mod (- n) (Zpos d) ltac:(lia)) as E.
  pose proof (Z.mod_pos_bound (- n) (Zpos d) ltac:(lia)) as B.
  split; nia.
Qed.

Lemma clamp_id (x : Q) : -1 <= x -> x <= 1 -> clamp x == x.
Proof.
  intros Hl Hu. unfold clamp.
  rewrite (Q.min_r 1 x Hu). now apply Q.max_r.
Qed.

Lemma clamp_range (x : Q) : -1 <= clamp x /\ clamp x <= 1.
Proof.
  unfold clamp. split.
  - apply Q.le_max_l.
  - apply Q.max_lub; [lra | apply Q.le_min_l].
Qed.

(** The scaled, truncated sample of a clamped value, against the value. *)
Lemma scaled_bounds (c : Q) :
  -1 <= c -> c <= 1 ->
  let t := inject_Z (truncate (scale c)) in
  -32768 <= t /\ t <= 32767 /\
  (c < 0 -> c * 32768 <= t /\ t < c * 32768 + 1) /\
  (0 <= c -> t <= c * 32767 /\ c * 32767 < t + 1).
Proof.
  intros Hl Hu. unfold scale.
  destruct (c ?= 0) eqn:E; simpl.
  - apply Qeq_alt in E.
    destruct (truncate_nonneg (c * 32767) ltac:(lra)) as [A B].
    repeat split; intros; lra.
  - apply Qlt_alt in E.
    destruct (truncate_nonpos (c * 32768) ltac:(lra)) as [A B].
    repeat split; intros; lra.
  - apply Qgt_alt in E.
    destruct (truncate_nonneg (c * 32767) ltac:(lra)) as [A B].
    repeat split; intros; lra.
Qed.

(** *** Sixteen-bit integers and their two bytes *)

Lemma toInt16_range (z : Z) : (-32768 <= toInt16 z <= 32767)%Z.
Proof. unfold toInt16. pose proof (Z.mod_pos_bound (z + 32768) 65536). lia. Qed.

Lemma toInt16_id (z : Z) : (-32768 <= z <= 32767)%Z -> toInt16 z = z.
Proof. intros H. unfold toInt16. rewrite Z.mod_small; lia. Qed.

Lemma lor_shiftl_8 (lo hi : Z) :
  (0 <= lo < 256)%Z -> Z.lor lo (Z.shiftl hi 8) = (lo + 256 * hi)%Z.
Proof.
  intros Hlo.
  assert (Z.land lo (Z.shiftl hi 8) = 0%Z) as Hand.
  { apply Z.bits_inj'. intros n Hn.
    rewrite Z.land_spec, Z.bits_0.
    destruct (Z.ltb_spec n 8) as [Hlt | Hge].
    - rewrite (Z.shiftl_spec_low hi 8 n Hlt). apply andb_false_r.
    - rewrite <- (Z.mod_small lo (2 ^ 8)) by (change (2 ^ 8)%Z with 256%Z; lia).
      rewrite Z.mod_pow2_bits_high by lia. reflexivity. }
  pose proof (Z.add_lor_land lo (Z.shiftl hi 8)) as E.
  rewrite Hand, Z.shiftl_mul_pow2 in E by lia.
  rewrite Z.shiftl_mul_pow2 by lia.
  change (2 ^ 8)%Z with 256%Z in *. lia.
Qed.

Lemma lowByte_eq (v : Z) : lowByte v = ((v mod 65536) mod 256)%Z.
Proof.
  unfold lowByte. change 255%Z with (Z.ones 8).
  rewrite Z.land_ones by lia. reflexivity.
Qed.

Lemma highByte_eq (v : Z) : highByte v = ((v mod 65536) / 256)%Z.
Proof.
  unfold highByte. change 255%Z with (Z.ones 8).
  rewrite Z.land_ones, Z.shiftr_div_pow2 by lia.
  change (2 ^ 8)%Z with 256%Z.
  pose proof (Z.mod_pos_bound v 65536 ltac:(lia)).
  apply Z.mod_small. split.
  - apply Z.div_pos; lia.
  - apply Z.div_lt_upper_bound; lia.
Qed.

(** A 16-bit signed integer survives the trip through its two bytes. *)
Lemma int16OfBytes_bytes (v : Z) :
  (-32768 <= v <= 32767)%Z -> int16OfBytes (lowByte v) (highByte v) = v.
Proof.
  intros Hv. unfold int16OfBytes.
  rewrite lowByte_eq, highByte_eq.
  pose proof (Z.mod_pos_bound v 65536 ltac:(lia)) as Hu.
  pose proof (Z.mod_pos_bound (v mod 65536) 256 ltac:(lia)) as Hlo.
  rewrite lor_shiftl_8 by lia.
  pose proof (Z.div_mod (v mod 65536) 256 ltac:(lia)) as Eu.
  replace ((v mod 65536) mod 256 + 256 * (v mod 65536 / 256))%Z
    with (v mod 65536)%Z by lia.
  pose proof (Z.div_mod v 65536 ltac:(lia)) as Ev.
  destruct (Z.ltb_spec (v mod 65536) 32768); lia.
Qed.

(** *** Byte sequences *)

Lemma encode_length (xs : list Q) :
  List.length (encode xs) = (2 * List.length xs)%nat.
Proof.
  unfold encode. induction xs as [| x xs IH]; simpl; [reflexivity | ].
  rewrite IH. lia.
Qed.

Lemma samplesOfBytes_encode (xs : list Q) :
  samplesOfBytes (encode xs)
  = List.map (fun x => sampleOfInt16 (quantize x)) xs.
Proof.
  unfold encode. induction xs as [| x xs IH]; simpl; [reflexivity | ].
  rewrite int16OfBytes_bytes by apply toInt16_range.
  now rewrite IH.
Qed.

Lemma map_nth_seq (l : list Q) :
  List.map (fun i => List.nth (i * 1 + 0) l 0) (List.seq 0 (List.length l)) = l.
Proof.
  apply (List.nth_ext _ _ 0 0).
  - now rewrite List.length_map, List.length_seq.
  - intros n Hn. rewrite List.length_map, List.length_seq in Hn.
    pose proof (List.map_nth (fun i => List.nth (i * 1 + 0) l 0)
                  (List.seq 0 (List.length l)) (List.length l) n) as E.
    cbv beta in E.
    rewrite (List.nth_overflow l) in E by lia.
    rewrite E, List.seq_nth by assumption.
    f_equal. lia.
Qed.

(** A mono buffer has its flat run as channel 0. *)
Lemma getChannelData_mono (rate : positive) (l : list Q) :
  getChannelData (mkAudioBuffer rate 1 l) 0 = l.
Proof.
  unfold getChannelData, frames. cbn [numberOfChannels interleaved].
  change (Pos.to_nat 1) with 1%nat.
  rewrite Nat.div_1_r. apply map_nth_seq.
Qed.

(** Decoding an encoded mono chunk succeeds and yields the quantised
    samples. *)
Lemma decode_encode (xs : list Q) (rate : positive) :
  decode (encode xs) rate 1
  = Some (mkAudioBuffer rate 1
            (List.map (fun x => sampleOfInt16 (quantize x)) xs)).
Proof.
  unfold decode. rewrite encode_length, samplesOfBytes_encode.
  replace (Z.of_nat (2 * List.length xs) mod (2 * 1))%Z with 0%Z.
  - reflexivity.
  - rewrite Nat2Z.inj_mul. change (2 * 1)%Z with 2%Z.
    rewrite Z.mul_comm, Z.mod_mul; lia.
Qed.

(** *** The quantisation error of one sample *)

Lemma quantize_error (x : Q) :
  -1 <= x -> x <= 1 ->
  let y := sampleOfInt16 (quantize x) in
  (x < 0 -> 0 <= y - x /\ y - x < 1 # 32768) /\
  (0 <= x -> 0 <= x - y /\ x - y < (x + 1) * (1 # 32768)).
Proof.
  intros Hl Hu.
  pose proof (clamp_id x Hl Hu) as Hc.
  destruct (clamp_range x) as [Cl Cu].
  unfold quantize.
  destruct (scaled_bounds (clamp x) Cl Cu) as (Tl & Tu & Hneg & Hpos).
  set (t := truncate (scale (clamp x))) in *.
  rewrite toInt16_id.
  2:{ split; rewrite Zle_Qle; assumption. }
  unfold sampleOfInt16. cbv zeta.
  assert (t # 32768 == inject_Z t * (1 # 32768)) as E.
  { unfold Qeq, inject_Z, Qmult; simpl. lia. }
  rewrite E. split; intros Hx.
  - destruct Hneg as [A B]; [lra | ]. split; lra.
  - destruct Hpos as [A B]; [lra | ]. split; lra.
Qed.

Lemma sample_within (x : Q) :
  -1 <= x -> x <= 1 ->
  let y := sampleOfInt16 (quantize x) in
  Qabs (x - y) < 1 # 16384 /\ (x <= 0 -> Qabs (x - y) <= 1 # 32767).
Proof.
  intros Hl Hu y.
  destruct (quantize_error x Hl Hu) as [Hneg Hpos]. fold y in Hneg, Hpos.
  destruct (Qlt_le_dec x 0) as [Hx | Hx].
  - destruct (Hneg Hx) as [A B]. split; [ | intros _].
    + apply Qabs_Qlt_condition. split; lra.
    + apply Qabs_Qle_condition. split; lra.
  - destruct (Hpos Hx) as [A B]. split.
    + apply Qabs_Qlt_condition. split; lra.
    + intros Hx0. apply Qabs_Qle_condition. split; lra.
Qed.

Lemma roundtrip_samples (xs : list Q) :
  List.Forall (fun x => -1 <= x /\ x <= 1) xs ->
  List.Forall2
    (fun x y => Qabs (x - y) < 1 # 16384 /\ (x <= 0 -> Qabs (x - y) <= 1 # 32767))
    xs (List.map (fun x => sampleOfInt16 (quantize x)) xs).
Proof.
  induction 1 as [| x xs [Hl Hu] _ IH]; simpl; constructor.
  - exact (sample_within x Hl Hu).
  - exact IH.
Qed.

(** C3 (as amended).  For every mono sample sequence with all values in
    [-1,1], decoding the encoded sequence succeeds and is elementwise within
    [1/16384] of the original, and within [1/32767] at every sample that is
    not positive; encoding a silent chunk of 4096 zero samples yields 8192
    zero bytes, and decoding those yields a buffer of 4096 zero samples. *)
Theorem roundtrip_within_two_steps :
  (forall (xs : list Q) (rate : positive),
     List.Forall (fun x => -1 <= x /\ x <= 1) xs ->
     exists b,
       decode (encode xs) rate 1 = Some b /\
       List.Forall2
         (fun x y =>
            Qabs (x - y) < 1 # 16384 /\ (x <= 0 -> Qabs (x - y) <= 1 # 32767))
         xs (getChannelData b 0)) /\
  encode (List.repeat 0 4096) = List.repeat 0%Z (2 * 4096) /\
  (forall rate : positive,
     exists b,
       decode (List.repeat 0%Z (2 * 4096)) rate 1 = Some b /\
       List.length (getChannelData b 0) = 4096%nat /\
       List.Forall (fun y => y == 0) (getChannelData b 0)).
Proof.
  split; [ | split].
  - intros xs rate Hxs. eexists. split.
    + apply decode_encode.
    + rewrite getChannelData_mono. now apply roundtrip_samples.
  - vm_compute. reflexivity.
  - intros rate.
    exists (mkAudioBuffer rate 1 (List.repeat (0 # 32768) 4096)). split.
    + unfold decode.
      replace (samplesOfBytes (List.repeat 0%Z (2 * 4096)))
        with (List.repeat (0 # 32768) 4096) by (vm_compute; reflexivity).
      reflexivity.
    + rewrite getChannelData_mono. split.
      * apply List.repeat_length.
      * apply List.Forall_forall. intros y Hy.
        apply List.repeat_spec in Hy. subst y. reflexivity.
Qed.

(** The round trip at three samples in range. *)
Lemma roundtrip_within_two_steps_witness :
  exists b,
    decode (encode [1; -1; 131071 # 131072]) 24000 1 = Some b /\
    List.Forall2
      (fun x y =>
         Qabs (x - y) < 1 # 16384 /\ (x <= 0 -> Qabs (x - y) <= 1 # 32767))
      [1; -1; 131071 # 131072] (getChannelData b 0).
Proof.
  apply (proj1 roundtrip_within_two_steps).
  repeat constructor; unfold Qle; simpl; lia.
Defined.

(** C3 fails as stated: the sample [1 - 2^-17], which is in [-1,1], comes
    back as [32766/32768], further than [1/32767] away. *)
Lemma roundtrip_1_32767_fails :
  let x := 131071 # 131072 in
  (-1 <= x /\ x <= 1) /\
  option_map (fun b => getChannelData b 0) (decode (encode [x]) 24000 1)
  = Some [32766 # 32768] /\
  ~ Qabs (x - (32766 # 32768)) <= 1 # 32767.
Proof.
  cbv zeta. split; [ | split].
  - split; unfold Qle; simpl; lia.
  - vm_compute. reflexivity.
  - vm_compute. intros H. apply H. reflexivity.
Qed.

End CodecFacts.

(** ** The session orchestrator *)

Module AppFacts.

Import Codec App Props.

(** *** Stores *)

Lemma update_length {A : Type} (i : nat) (f : A -> A) (l : list A) :
  List.length (update i f l) = List.length l.
Proof.
  revert i. induction l as [| x l IH]; intros [| i]; simpl; auto.
Qed.

Lemma nth_error_update {A : Type} (i j : nat) (f : A -> A) (l : list A) :
  List.nth_error (update i f l) j
  = if Nat.eqb i j then option_map f (List.nth_error l j)
    else List.nth_error l j.
Proof.
  revert i j. induction l as [| x l IH]; intros i j.
  - destruct i, j; simpl; try reflexivity; now destruct (Nat.eqb i j).
  - destruct i, j; simpl; try reflexivity. apply IH.
Qed.

Lemma update_idempotent {A : Type} (i : nat) (f : A -> A) (l : list A) :
  (forall x, f (f x) = f x) -> update i f (update i f l) = update i f l.
Proof.
  intros Hf. revert i. induction l as [| x l IH]; intros [| i]; simpl; auto.
  - now rewrite Hf.
  - now rewrite IH.
Qed.

Lemma setAdd_In (n i : nat) (l : list nat) :
  List.In i (setAdd n l) <-> i = n \/ List.In i l.
Proof.
  unfold setAdd. destruct (List.existsb (Nat.eqb n) l) eqn:E.
  - split; [now right | ]. intros [-> | H]; [ | exact H].
    apply List.existsb_exists in E. destruct E as (x & Hx & Hxn).
    apply Nat.eqb_eq in Hxn. now subst.
  - rewrite List.in_app_iff. simpl. intuition.
Qed.

Lemma setDelete_In (n i : nat) (l : list nat) :
  List.In i (setDelete n l) -> List.In i l.
Proof. unfold setDelete. intros H. now apply List.filter_In in H. Qed.

(** *** Started sources can all be stopped *)

Lemma registryStarted_spec (s : AppState) :
  registryStarted s = true
  <-> (forall i, List.In i (sourcesRef s) -> started (nodes s) i).
Proof.
  unfold registryStarted, started. rewrite List.forallb_forall.
  split; intros H i Hi; specialize (H i Hi).
  - destruct (List.nth_error (nodes s) i) as [n | ]; [ | discriminate].
    exists n. split; [reflexivity | ].
    destruct (nodeStart n); [discriminate | discriminate H].
  - destruct H as (n & -> & Hn). now destruct (nodeStart n).
Qed.

Lemma stopNode_started (ns : list SourceNode) (i : nat) :
  started ns i ->
  exists ns',
    stopNode i ns = Some ns' /\
    List.length ns' = List.length ns /\
    (forall j, started ns j -> started ns' j) /\
    (forall j, stoppedIn ns j -> stoppedIn ns' j) /\
    stoppedIn ns' i.
Proof.
  intros (n & Hn & Hs). unfold stopNode. rewrite Hn.
  destruct (nodeStart n) as [t | ] eqn:Et; [ | contradiction].
  eexists. split; [reflexivity | ].
  split; [apply update_length | ].
  split; [ | split].
  - intros j (m & Hm & Hms). unfold started. rewrite nth_error_update, Hm.
    destruct (Nat.eqb i j); simpl; eauto.
  - intros j (m & Hm & Hstop). unfold stoppedIn.
    rewrite nth_error_update, Hm.
    destruct (Nat.eqb i j); simpl; eauto.
  - unfold stoppedIn. rewrite nth_error_update, Nat.eqb_refl, Hn. simpl. eauto.
Qed.

Lemma stopAll_started (ids : list nat) (ns : list SourceNode) :
  (forall i, List.In i ids -> started ns i) ->
  exists ns',
    stopAll ids ns = (ns', Normal) /\
    List.length ns' = List.length ns /\
    (forall j, started ns j -> started ns' j) /\
    (forall j, stoppedIn ns j -> stoppedIn ns' j) /\
    (forall i, List.In i ids -> stoppedIn ns' i).
Proof.
  revert ns. induction ids as [| i ids IH]; intros ns Hall; simpl.
  - exists ns. repeat split; auto. intros i [].
  - destruct (stopNode_started ns i (Hall i (or_introl eq_refl)))
      as (ns1 & E1 & L1 & S1 & K1 & T1).
    rewrite E1.
    destruct (IH ns1) as (ns2 & E2 & L2 & S2 & K2 & T2).
    { intros j Hj. apply S1, Hall. now right. }
    exists ns2. split; [exact E2 | ]. split; [congruence | ].
    split; [auto | ]. split; [auto | ].
    intros j [<- | Hj]; auto.
Qed.

Lemma registryStarted_ok (s : AppState) :
  registryStarted s = true <-> registryOk s.
Proof. apply registryStarted_spec. Qed.

Lemma started_app (ns extra : list SourceNode) (i : nat) :
  started ns i -> started (ns ++ extra) i.
Proof.
  intros (n & Hn & Hs). exists n. split; [ | exact Hs].
  rewrite List.nth_error_app1; [exact Hn | ].
  apply List.nth_error_Some. congruence.
Qed.

Lemma stoppedIn_app (ns extra : list SourceNode) (i : nat) :
  stoppedIn ns i -> stoppedIn (ns ++ extra) i.
Proof.
  intros (n & Hn & Hs). exists n. split; [ | exact Hs].
  rewrite List.nth_error_app1; [exact Hn | ].
  apply List.nth_error_Some. congruence.
Qed.

Lemma started_last (ns : list SourceNode) (n : SourceNode) :
  nodeStart n <> None -> started (ns ++ [n]) (List.length ns).
Proof.
  intros Hn. exists n. split; [ | exact Hn].
  rewrite List.nth_error_app2, Nat.sub_diag by lia. reflexivity.
Qed.

(** *** Interruption handling *)

Lemma onmessage_interrupted_ok (s : AppState) :
  registryOk s ->
  exists ns',
    onmessage_interrupted s
    = (setNextStartTimeRef 0%Q (setSourcesRef [] (setNodes ns' s)), Normal) /\
    List.length ns' = List.length (nodes s) /\
    (forall j, started (nodes s) j -> started ns' j) /\
    (forall j, stoppedIn (nodes s) j -> stoppedIn ns' j) /\
    (forall i, List.In i (sourcesRef s) -> stoppedIn ns' i).
Proof.
  intros Hok. unfold onmessage_interrupted.
  destruct (stopAll_started (sourcesRef s) (nodes s) Hok)
    as (ns' & E & L & S & K & T).
  exists ns'. rewrite E. auto.
Qed.

(** *** [endSession] *)

(** [close()] on the context [c]: the stores of contexts and of unhandled
    rejections apart, nothing changes. *)
Lemma closeAndDrop_fields (c : nat) (s : AppState) :
  sameLifecycle s (closeAndDrop c s) /\
  audioContextRef (closeAndDrop c s) = audioContextRef s /\
  streamRef (closeAndDrop c s) = streamRef s /\
  sessionRef (closeAndDrop c s) = sessionRef s /\
  transcript (closeAndDrop c s) = transcript s /\
  nextStartTimeRef (closeAndDrop c s) = nextStartTimeRef s /\
  sourcesRef (closeAndDrop c s) = sourcesRef s /\
  nodes (closeAndDrop c s) = nodes s.
Proof.
  unfold closeAndDrop, sameLifecycle.
  destruct (List.nth_error (contexts s) c) as [ctx | ];
    [destruct (closeRejects ctx) | ]; repeat split; reflexivity.
Qed.

Lemma closeAndDrop_stores (c : nat) (s : AppState) :
  contexts (closeAndDrop c s) = update c closeContext (contexts s) /\
  streams (closeAndDrop c s) = streams s /\
  sessions (closeAndDrop c s) = sessions s /\
  pendingMicrophone (closeAndDrop c s) = pendingMicrophone s /\
  pendingSummary (closeAndDrop c s) = pendingSummary s.
Proof.
  unfold closeAndDrop.
  destruct (List.nth_error (contexts s) c) as [ctx | ];
    [destruct (closeRejects ctx) | ]; repeat split; reflexivity.
Qed.

Lemma released_fields (s : AppState) :
  phase (released s) = phase s /\
  config (released s) = config s /\
  questions (released s) = questions s /\
  error (released s) = error s /\
  isConnected (released s) = isConnected s /\
  transcript (released s) = transcript s /\
  audioContextRef (released s) = audioContextRef s /\
  streamRef (released s) = streamRef s /\
  nextStartTimeRef (released s) = nextStartTimeRef s /\
  sourcesRef (released s) = sourcesRef s /\
  sessionRef (released s) = sessionRef s /\
  nodes (released s) = nodes s.
Proof.
  unfold released, closeAndDrop, closeRejects.
  destruct (streamRef s) as [i | ] eqn:E1; cbn; rewrite ?E1;
    (destruct (audioContextRef s) as [c | ] eqn:E2; cbn; rewrite ?E2;
     [destruct (List.nth_error (contexts s) c) as [ctx | ];
      [destruct (ctxClosed ctx) | ]; cbn | ]);
    destruct (sessionRef s) as [k | ] eqn:E3; cbn; rewrite ?E1, ?E2, ?E3;
    repeat split; reflexivity.
Qed.

Lemma endSession_unfold (s : AppState) :
  endSession s
  = match stopAll (sourcesRef s) (nodes s) with
    | (ns, Normal) =>
        (setIsConnected false (setSourcesRef [] (setNodes ns (released s))),
         Normal)
    | (ns, Throw e) => (setNodes ns (released s), Throw e)
    end.
Proof.
  destruct (released_fields s) as (_ & _ & _ & _ & _ & _ & _ & _ & _ & Hs & _ & Hn).
  rewrite <- Hs, <- Hn. reflexivity.
Qed.

Lemma endSession_ok (s : AppState) :
  registryOk s ->
  exists ns',
    endSession s
    = (setIsConnected false (setSourcesRef [] (setNodes ns' (released s))),
       Normal) /\
    List.length ns' = List.length (nodes s) /\
    (forall j, started (nodes s) j -> started ns' j) /\
    (forall i, List.In i (sourcesRef s) -> stoppedIn ns' i).
Proof.
  intros Hok. rewrite endSession_unfold.
  destruct (stopAll_started (sourcesRef s) (nodes s) Hok)
    as (ns' & E & L & S & K & T).
  exists ns'. rewrite E. auto.
Qed.

Section WithAudioUtils.

Context {audioUtils : AudioUtils}.

(** *** Audio fragments *)

(** The audio block on a payload that decodes. *)
Lemma onmessage_audio_decoded (outputCtx : nat) (base64Audio : string)
    (now : Q) (s : AppState) (b : AudioBuffer) :
  decodePayload outputCtx base64Audio = Some b ->
  onmessage_audio outputCtx base64Audio now s
  = (setSourcesRef (setAdd (List.length (nodes s)) (sourcesRef s))
       (setNextStartTimeRef (Qmax (nextStartTimeRef s) now + duration b)%Q
          (setNodes
             (nodes s
              ++ [mkNode outputCtx b (Some (Qmax (nextStartTimeRef s) now)) false])
             (setNextStartTimeRef (Qmax (nextStartTimeRef s) now) s))),
     Normal).
Proof.
  unfold decodePayload, onmessage_audio. intros H.
  destruct (base64ToUint8Array base64Audio) as [bytes | ]; [ | discriminate].
  rewrite H. reflexivity.
Qed.

(** The audio block on a payload that does not decode. *)
Lemma onmessage_audio_failed (outputCtx : nat) (base64Audio : string)
    (now : Q) (s : AppState) :
  decodePayload outputCtx base64Audio = None ->
  exists e,
    onmessage_audio outputCtx base64Audio now s
    = (setNextStartTimeRef (Qmax (nextStartTimeRef s) now) s, Throw e).
Proof.
  unfold decodePayload, onmessage_audio. intros H.
  destruct (base64ToUint8Array base64Audio) as [bytes | ]; [ | eauto].
  rewrite H. eauto.
Qed.

Lemma onmessage_audio_registryOk (outputCtx : nat) (base64Audio : string)
    (now : Q) (s : AppState) :
  registryOk s ->
  registryOk (fst (onmessage_audio outputCtx base64Audio now s)).
Proof.
  intros Hok.
  destruct (decodePayload outputCtx base64Audio) as [b | ] eqn:E.
  - rewrite (onmessage_audio_decoded _ _ now s b E). simpl.
    intros i Hi. simpl in *. apply setAdd_In in Hi. destruct Hi as [-> | Hi].
    + apply started_last. discriminate.
    + apply started_app. now apply Hok.
  - destruct (onmessage_audio_failed _ _ now s E) as (e & ->). exact Hok.
Qed.

Lemma onmessage_registryOk (outputCtx : nat) (message : Live.LiveServerMessage)
    (now : Q) (s : AppState) :
  registryOk s -> registryOk (fst (onmessage outputCtx message now s)).
Proof.
  intros Hok. unfold onmessage.
  assert (registryOk (onmessage_transcript message s)) as Hok1.
  { unfold onmessage_transcript.
    destruct (Live.truthy (Live.firstText message)); exact Hok. }
  set (s1 := onmessage_transcript message s) in *.
  assert (registryOk
            (fst match Live.truthy (Live.firstInlineData message) with
                 | Some base64Audio =>
                     onmessage_audio outputCtx base64Audio now s1
                 | None => (s1, Normal)
                 end)) as Hok2.
  { destruct (Live.truthy (Live.firstInlineData message));
      [now apply onmessage_audio_registryOk | exact Hok1]. }
  destruct (match Live.truthy (Live.firstInlineData message) with
            | Some base64Audio => onmessage_audio outputCtx base64Audio now s1
            | None => (s1, Normal)
            end) as [s2 [ | e]]; simpl in Hok2; [ | exact Hok2].
  destruct (Live.isInterrupted message); [ | exact Hok2].
  destruct (onmessage_interrupted_ok s2 Hok2) as (ns' & -> & _).
  intros i [].
Qed.

Lemma endSession_registryOk (s : AppState) :
  registryOk s -> registryOk (fst (endSession s)).
Proof.
  intros Hok. destruct (endSession_ok s Hok) as (ns' & -> & _).
  intros i [].
Qed.

Lemma handleEndGame_registryOk (s : AppState) :
  registryOk s -> registryOk (fst (handleEndGame s)).
Proof.
  intros Hok. unfold handleEndGame.
  destruct (endSession_ok s Hok) as (ns' & -> & _).
  cbn. destruct (questions (released s)); intros i [].
Qed.

(** The summary call leaves the nodes and the registry alone. *)
Lemma generateSummarySpeech_nodes (response : option (option string))
    (s : AppState) :
  nodes (fst (generateSummarySpeech response s)) = nodes s /\
  sourcesRef (fst (generateSummarySpeech response s)) = sourcesRef s.
Proof.
  unfold generateSummarySpeech.
  destruct response as [data | ]; [ | now split].
  destruct (Live.truthy data) as [base64Audio | ]; [ | now split].
  destruct (base64ToUint8Array base64Audio); now split.
Qed.

(** The states the continuation of [handleEndGame] can leave: nothing was
    suspended; or one suspended call is resumed and no context is opened (no
    payload), one is (the payload does not decode, or there is no audio
    context reference), or two are, with the summary started at 0 on the
    second. *)
Lemma handleEndGame_resume_cases (response : option (option string))
    (s : AppState) :
  (pendingSummary s = 0%nat /\ handleEndGame_resume response s = s) \/
  exists waiting,
    pendingSummary s = S waiting /\
    let s0 := setPendingSummary waiting s in
    handleEndGame_resume response s = s0 \/
    handleEndGame_resume response s
    = setContexts (contexts s0 ++ [mkContext 24000 false]) s0 \/
    exists buffer,
      audioContextRef s <> None /\
      handleEndGame_resume response s
      = setNodes
          (nodes s0
           ++ [mkNode (S (List.length (contexts s0))) buffer (Some 0%Q) false])
          (setContexts
             (contexts s0 ++ [mkContext 24000 false; mkContext 24000 false])
             s0).
Proof.
  unfold handleEndGame_resume.
  destruct (pendingSummary s) as [| waiting] eqn:Ep; [now left | right].
  exists waiting. split; [reflexivity | ].
  set (s0 := setPendingSummary waiting s).
  unfold generateSummarySpeech.
  destruct response as [data | ]; [ | now left].
  destruct (Live.truthy data) as [base64Audio | ]; [ | now left].
  destruct (base64ToUint8Array base64Audio) as [bytes | ]; [ | right; now left].
  destruct (decodeAudioData bytes (List.length (contexts s0)) 24000 1)
    as [buffer | ]; [ | right; now left].
  cbn [audioContextRef setContexts].
  destruct (audioContextRef s0) as [c | ] eqn:Ea; [ | right; now left].
  right; right. exists buffer. split.
  - unfold s0 in Ea. cbn in Ea. congruence.
  - cbn [setNodes setContexts phase config questions error isConnected
         transcript audioContextRef streamRef nextStartTimeRef sourcesRef
         sessionRef contexts streams nodes sessions pendingMicrophone
         pendingSummary unhandledRejections].
    rewrite List.length_app, Nat.add_1_r, <- List.app_assoc. reflexivity.
Qed.

Lemma handleEndGame_resume_registryOk (response : option (option string))
    (s : AppState) :
  registryOk s -> registryOk (handleEndGame_resume response s).
Proof.
  intros Hok.
  destruct (handleEndGame_resume_cases response s)
    as [(_ & ->) | (waiting & _ & [-> | [-> | (buffer & _ & ->)]])];
    try exact Hok.
  intros i Hi. cbn in *. apply started_app. now apply Hok.
Qed.

Lemma step_registryOk (s : AppState) (e : Event) :
  registryOk s -> registryOk (step s e).
Proof.
  intros Hok. destruct e; simpl.
  - unfold handleStart. destruct generated; exact Hok.
  - unfold startLiveSession.
    destruct (config s); [ | exact Hok].
    destruct (questions s); exact Hok.
  - unfold startLiveSession_resume.
    destruct (pendingMicrophone s); [exact Hok | ].
    destruct mic; exact Hok.
  - exact Hok.
  - now apply onmessage_registryOk.
  - exact Hok.
  - exact Hok.
  - intros i Hi. simpl in *. apply Hok. eapply setDelete_In, Hi.
  - now apply handleEndGame_registryOk.
  - now apply handleEndGame_resume_registryOk.
  - exact Hok.
  - now apply endSession_registryOk.
Qed.

Lemma run_registryOk (events : list Event) (s : AppState) :
  registryOk s -> registryOk (run events s).
Proof.
  revert s. induction events as [| e events IH]; intros s Hok; simpl.
  - exact Hok.
  - apply IH, step_registryOk, Hok.
Qed.

(** In every state the component can be in, the registered sources were
    all started. *)
Lemma reachable_registryOk (s : AppState) : reachable s -> registryOk s.
Proof.
  intros (events & <-). apply run_registryOk. intros i [].
Qed.

(** *** Scheduling of audio fragments *)

Lemma startAt_last (s : AppState) (ns : list SourceNode) (n : SourceNode) :
  nodes s = ns ++ [n] -> startAt s (List.length ns) = nodeStart n.
Proof.
  intros H. unfold startAt. rewrite H.
  rewrite List.nth_error_app2, Nat.sub_diag by lia. reflexivity.
Qed.

(** A message whose first part carries a decodable payload and which is not
    an interruption: the new source starts at [max(nextStartTime, now)]. *)
Lemma onmessage_enqueue (s : AppState) (outputCtx : nat)
    (message : Live.LiveServerMessage) (base64Audio : string)
    (b : AudioBuffer) (now : Q) :
  Live.truthy (Live.firstInlineData message) = Some base64Audio ->
  decodePayload outputCtx base64Audio = Some b ->
  Live.isInterrupted message = false ->
  exists s',
    onmessage outputCtx message now s = (s', Normal) /\
    nodes s'
    = nodes s
      ++ [mkNode outputCtx b (Some (Qmax (nextStartTimeRef s) now)) false] /\
    sourcesRef s' = setAdd (List.length (nodes s)) (sourcesRef s) /\
    nextStartTimeRef s' = (Qmax (nextStartTimeRef s) now + duration b)%Q.
Proof.
  intros Hp Hb Hi. unfold onmessage. rewrite Hp, Hi.
  rewrite (onmessage_audio_decoded _ _ now _ b Hb).
  eexists. split; [reflexivity | ].
  unfold onmessage_transcript.
  destruct (Live.truthy (Live.firstText message)); simpl; auto.
Qed.

(** C1.  A message that carries a decodable audio fragment (and no
    interruption) gets a source that is started at
    [max(nextStartTime, clockNow)] and registered, and afterwards
    [nextStartTime] is that start time plus the duration of the buffer.  In
    particular, from [nextStartTime = 0], a buffer of 1 s received at clock 0
    and a buffer of 0.5 s received at clock 0.3 start at 0 and at 1: the
    second starts exactly where the first ends. *)
Theorem enqueue_back_to_back :
  (forall (s : AppState) (outputCtx : nat) (message : Live.LiveServerMessage)
          (base64Audio : string) (b : AudioBuffer) (clockNow : Q),
     Live.truthy (Live.firstInlineData message) = Some base64Audio ->
     decodePayload outputCtx base64Audio = Some b ->
     Live.isInterrupted message = false ->
     exists s',
       onmessage outputCtx message clockNow s = (s', Normal) /\
       startAt s' (List.length (nodes s))
       = Some (Qmax (nextStartTimeRef s) clockNow) /\
       List.In (List.length (nodes s)) (sourcesRef s') /\
       nextStartTimeRef s'
       = (Qmax (nextStartTimeRef s) clockNow + duration b)%Q) /\
  (forall (s : AppState) (outputCtx : nat) (p1 p2 : string)
          (b1 b2 : AudioBuffer),
     Live.truthy (Some p1) = Some p1 ->
     Live.truthy (Some p2) = Some p2 ->
     decodePayload outputCtx p1 = Some b1 ->
     decodePayload outputCtx p2 = Some b2 ->
     (duration b1 == 1)%Q -> (duration b2 == 1 # 2)%Q ->
     nextStartTimeRef s = 0%Q ->
     let s2 :=
       run [EvMessage outputCtx (Scenario.audioMessage p1) 0%Q;
            EvMessage outputCtx (Scenario.audioMessage p2) (3 # 10)%Q] s in
     exists t1 t2,
       startAt s2 (List.length (nodes s)) = Some t1 /\
       startAt s2 (S (List.length (nodes s))) = Some t2 /\
       (t1 == 0)%Q /\ (t2 == 1)%Q /\ (t2 == t1 + duration b1)%Q /\
       (nextStartTimeRef s2 == 3 # 2)%Q).
Proof.
  split.
  - intros s outputCtx message base64Audio b clockNow Hp Hb Hi.
    destruct (onmessage_enqueue s outputCtx message base64Audio b clockNow
                Hp Hb Hi) as (s' & E & Hn & Hr & Ht).
    exists s'. split; [exact E | ]. split; [ | split; [ | exact Ht]].
    + now rewrite (startAt_last s' _ _ Hn).
    + rewrite Hr. apply setAdd_In. now left.
  - intros s outputCtx p1 p2 b1 b2 T1 T2 D1 D2 L1 L2 H0 s2.
    destruct (onmessage_enqueue s outputCtx (Scenario.audioMessage p1) p1 b1
                0%Q T1 D1 eq_refl) as (s1 & E1 & N1 & R1 & C1).
    destruct (onmessage_enqueue s1 outputCtx (Scenario.audioMessage p2) p2 b2
                (3 # 10)%Q T2 D2 eq_refl) as (s2' & E2 & N2 & R2 & C2).
    assert (s2 = s2') as ->.
    { unfold s2, run. cbn [List.fold_left step].
      rewrite E1. cbn [fst]. rewrite E2. reflexivity. }
    exists (Qmax (nextStartTimeRef s) 0), (Qmax (nextStartTimeRef s1) (3 # 10)).
    assert (Qmax (nextStartTimeRef s) 0 == 0)%Q as A1
      by (rewrite H0; reflexivity).
    assert (Qmax (nextStartTimeRef s1) (3 # 10) == 1)%Q as A2.
    { rewrite C1, A1, L1. reflexivity. }
    split; [ | split; [ | split; [exact A1 | split; [exact A2 | split]]]].
    + unfold startAt. rewrite N2, N1, <- List.app_assoc.
      rewrite List.nth_error_app2, Nat.sub_diag by lia. reflexivity.
    + replace (S (List.length (nodes s))) with (List.length (nodes s1))
        by (rewrite N1, List.length_app; simpl; lia).
      now rewrite (startAt_last s2' _ _ N2).
    + rewrite A1, A2, L1. reflexivity.
    + rewrite C2, A2, L2. reflexivity.
Qed.

(** *** Interruption *)

Lemma stopped_of_stoppedIn (s : AppState) (i : nat) :
  stoppedIn (nodes s) i -> stopped s i = true.
Proof. intros (n & Hn & Hs). unfold stopped. now rewrite Hn. Qed.

(** C2.  Handling an interruption stops every registered source, leaves the
    registry empty and resets [nextStartTime] to 0; a fragment enqueued on
    the state so reached, at a clock reading [now >= 0], is scheduled at
    [now]; and the state reached does not depend on the value
    [nextStartTime] had before, so that nothing scheduled later can.  The
    same holds for the handling of a whole message that carries the
    interruption flag and no audio. *)
Theorem interruption_stops_all_and_resets (s : AppState) :
  registryStarted s = true ->
  (exists s',
     onmessage_interrupted s = (s', Normal) /\
     (forall stale : Q,
        onmessage_interrupted (setNextStartTimeRef stale s) = (s', Normal)) /\
     (forall i, List.In i (sourcesRef s) -> stopped s' i = true) /\
     sourcesRef s' = [] /\
     nextStartTimeRef s' = 0%Q /\
     (forall (outputCtx : nat) (base64Audio : string) (b : AudioBuffer)
             (now : Q),
        decodePayload outputCtx base64Audio = Some b ->
        (0 <= now)%Q ->
        exists s'' t,
          onmessage_audio outputCtx base64Audio now s' = (s'', Normal) /\
          startAt s'' (List.length (nodes s')) = Some t /\ (t == now)%Q)) /\
  (forall (outputCtx : nat) (message : Live.LiveServerMessage) (clock : Q),
     Live.isInterrupted message = true ->
     Live.truthy (Live.firstInlineData message) = None ->
     exists s',
       onmessage outputCtx message clock s = (s', Normal) /\
       (forall i, List.In i (sourcesRef s) -> stopped s' i = true) /\
       List.length (sourcesRef s') = 0%nat /\
       nextStartTimeRef s' = 0%Q).
Proof.
  intros Hs. apply registryStarted_ok in Hs. split.
  - destruct (onmessage_interrupted_ok s Hs) as (ns' & E & L & _ & _ & T).
    eexists. split; [exact E | ].
    split; [ | split; [ | split; [reflexivity | split; [reflexivity | ]]]].
    + intros stale. unfold onmessage_interrupted in *. simpl.
      destruct (stopAll (sourcesRef s) (nodes s)) as [ns [ | e]];
        [ | discriminate E].
      inversion E; subst. reflexivity.
    + intros i Hi. apply stopped_of_stoppedIn. simpl. now apply T.
    + intros outputCtx base64Audio b now Hb Hnow.
      rewrite (onmessage_audio_decoded _ _ now _ b Hb).
      eexists. exists (Qmax 0 now). split; [reflexivity | ]. split.
      * erewrite startAt_last; [ | simpl; reflexivity]. reflexivity.
      * now apply Q.max_r.
  - intros outputCtx message clock Hi Hp. unfold onmessage.
    rewrite Hp, Hi.
    assert (registryOk (onmessage_transcript message s)) as Hs1.
    { unfold onmessage_transcript.
      destruct (Live.truthy (Live.firstText message)); exact Hs. }
    assert (sourcesRef (onmessage_transcript message s) = sourcesRef s) as Er.
    { unfold onmessage_transcript.
      destruct (Live.truthy (Live.firstText message)); reflexivity. }
    destruct (onmessage_interrupted_ok _ Hs1) as (ns' & E & L & _ & _ & T).
    eexists. split; [exact E | ].
    split; [ | split; reflexivity].
    intros i Hi'. apply stopped_of_stoppedIn. simpl. apply T. now rewrite Er.
Qed.

(** *** Session end *)

Lemma endSession_nextStartTime (s : AppState) :
  nextStartTimeRef (fst (endSession s)) = nextStartTimeRef s.
Proof.
  rewrite endSession_unfold.
  destruct (released_fields s)
    as (_ & _ & _ & _ & _ & _ & _ & _ & Hn & _).
  destruct (stopAll (sourcesRef s) (nodes s)) as [ns [ | e]]; simpl; exact Hn.
Qed.

(** *** What the transport callbacks leave alone *)

Lemma sameSession_refl (s : AppState) : sameSession s s.
Proof. unfold sameSession, sameLifecycle, sameResources. repeat split. Qed.

Lemma sameSession_trans (s1 s2 s3 : AppState) :
  sameSession s1 s2 -> sameSession s2 s3 -> sameSession s1 s3.
Proof.
  unfold sameSession, sameLifecycle, sameResources.
  intros ((A1 & A2 & A3 & A4 & A5) & (B1 & B2 & B3 & B4 & B5 & B6))
         ((C1 & C2 & C3 & C4 & C5) & (D1 & D2 & D3 & D4 & D5 & D6)).
  repeat split; congruence.
Qed.

Ltac keeps :=
  unfold sameSession, sameLifecycle, sameResources; simpl;
  repeat split; reflexivity.

Lemma onmessage_transcript_keeps (message : Live.LiveServerMessage)
    (s : AppState) :
  sameSession s (onmessage_transcript message s).
Proof.
  unfold onmessage_transcript.
  destruct (Live.truthy (Live.firstText message)); keeps.
Qed.

Lemma onmessage_audio_keeps (outputCtx : nat) (base64Audio : string)
    (now : Q) (s : AppState) :
  sameSession s (fst (onmessage_audio outputCtx base64Audio now s)).
Proof.
  unfold onmessage_audio.
  destruct (base64ToUint8Array base64Audio) as [bytes | ]; [ | keeps].
  destruct (decodeAudioData bytes outputCtx 24000 1); keeps.
Qed.

Lemma onmessage_interrupted_keeps (s : AppState) :
  sameSession s (fst (onmessage_interrupted s)).
Proof.
  unfold onmessage_interrupted.
  destruct (stopAll (sourcesRef s) (nodes s)) as [ns [ | e]]; keeps.
Qed.

Lemma onmessage_keeps (outputCtx : nat) (message : Live.LiveServerMessage)
    (now : Q) (s : AppState) :
  sameSession s (fst (onmessage outputCtx message now s)).
Proof.
  unfold onmessage.
  pose proof (onmessage_transcript_keeps message s) as H1.
  set (s1 := onmessage_transcript message s) in *.
  assert (sameSession s
            (fst match Live.truthy (Live.firstInlineData message) with
                 | Some base64Audio =>
                     onmessage_audio outputCtx base64Audio now s1
                 | None => (s1, Normal)
                 end)) as H2.
  { destruct (Live.truthy (Live.firstInlineData message)); [ | exact H1].
    eapply sameSession_trans; [exact H1 | apply onmessage_audio_keeps]. }
  destruct (match Live.truthy (Live.firstInlineData message) with
            | Some base64Audio => onmessage_audio outputCtx base64Audio now s1
            | None => (s1, Normal)
            end) as [s2 [ | e]]; simpl in H2; [ | exact H2].
  destruct (Live.isInterrupted message); [ | exact H2].
  eapply sameSession_trans; [exact H2 | apply onmessage_interrupted_keeps].
Qed.

Lemma onended_keeps (sourceNode : nat) (s : AppState) :
  sameSession s (onended sourceNode s).
Proof. keeps. Qed.

(** C5 (as amended).  The transport-closed callback clears the connection
    flag and changes nothing else: the phase, the error, the references and
    stores of resources, the configuration, the questions, the transcript,
    [nextStartTime], the registry, the sources, the suspended handlers and
    the unhandled rejections are what they were.  The transport-error
    callback sets the user-visible error to "Connection error." and changes
    nothing else.  Neither moves the phase or releases a resource, and no
    sequence of events coming from the transport or the audio graph does:
    the phase, and the stores of audio contexts, capture streams and live
    sessions are what they were. *)
Theorem transport_events_keep_phase_and_resources :
  (forall s : AppState,
     isConnected (onclose s) = false /\
     phase (onclose s) = phase s /\ error (onclose s) = error s /\
     sameResources s (onclose s) /\
     nodes (onclose s) = nodes s /\ sourcesRef (onclose s) = sourcesRef s /\
     sameGame s (onclose s)) /\
  (forall s : AppState,
     error (onerror s) = Some "Connection error." /\
     phase (onerror s) = phase s /\
     isConnected (onerror s) = isConnected s /\
     sameResources s (onerror s) /\
     nodes (onerror s) = nodes s /\ sourcesRef (onerror s) = sourcesRef s /\
     sameGame s (onerror s)) /\
  (forall (events : list Event) (s : AppState),
     List.forallb isTransportEvent events = true ->
     phase (run events s) = phase s /\
     contexts (run events s) = contexts s /\
     streams (run events s) = streams s /\
     sessions (run events s) = sessions s).
Proof.
  split; [ | split].
  - intros s. unfold sameResources, sameGame. simpl. repeat split.
  - intros s. unfold sameResources, sameGame. simpl. repeat split.
  - induction events as [| e events IH]; intros s He; simpl in *.
    + repeat split.
    + apply andb_prop in He. destruct He as [He Hrest].
      destruct (IH (step s e) Hrest) as (P & C & M & K).
      rewrite P, C, M, K. clear IH P C M K Hrest.
      destruct e; try discriminate He; simpl.
      * repeat split.
      * destruct (onmessage_keeps outputCtx message currentTime s)
          as ((P & _) & (_ & _ & _ & C & M & K)). auto.
      * repeat split.
      * repeat split.
      * repeat split.
Qed.

(** *** A fragment that does not decode *)

(** C6.  When the audio fragment of a message does not decode, the handler
    rejects and nothing is scheduled: the phase, the connection flag, the
    error banner, the resources, the source store and the registry are
    unchanged, and only [nextStartTime] has been raised to
    [max(nextStartTime, now)].  The run goes on with the following events,
    and a later decodable fragment is scheduled exactly as if the failed one
    had never arrived. *)
Theorem undecodable_fragment_is_skipped (s : AppState) (outputCtx : nat)
    (message : Live.LiveServerMessage) (base64Audio : string) (now : Q) :
  Live.truthy (Live.firstInlineData message) = Some base64Audio ->
  decodePayload outputCtx base64Audio = None ->
  exists s' e,
    onmessage outputCtx message now s = (s', Throw e) /\
    sameSession s s' /\
    nodes s' = nodes s /\ sourcesRef s' = sourcesRef s /\
    nextStartTimeRef s' = Qmax (nextStartTimeRef s) now /\
    (forall events : list Event,
       run (EvMessage outputCtx message now :: events) s = run events s') /\
    (forall (next : Live.LiveServerMessage) (payload : string)
            (b : AudioBuffer) (later : Q),
       Live.truthy (Live.firstInlineData next) = Some payload ->
       decodePayload outputCtx payload = Some b ->
       Live.isInterrupted next = false ->
       (now <= later)%Q ->
       exists s'' t,
         onmessage outputCtx next later s' = (s'', Normal) /\
         nodes s'' = nodes s ++ [mkNode outputCtx b (Some t) false] /\
         (t == Qmax (nextStartTimeRef s) later)%Q /\
         List.In (List.length (nodes s)) (sourcesRef s'')).
Proof.
  intros Hp Hd.
  destruct (onmessage_audio_failed outputCtx base64Audio now
              (onmessage_transcript message s) Hd) as (e & E).
  assert (onmessage outputCtx message now s
          = (setNextStartTimeRef
               (Qmax (nextStartTimeRef (onmessage_transcript message s)) now)
               (onmessage_transcript message s), Throw e)) as Eo.
  { unfold onmessage. rewrite Hp, E. reflexivity. }
  assert (nodes (onmessage_transcript message s) = nodes s /\
          sourcesRef (onmessage_transcript message s) = sourcesRef s /\
          nextStartTimeRef (onmessage_transcript message s)
          = nextStartTimeRef s) as (Tn & Tr & Tt).
  { unfold onmessage_transcript.
    destruct (Live.truthy (Live.firstText message)); simpl; auto. }
  eexists. exists e. split; [exact Eo | ].
  split; [ | split; [exact Tn | split; [exact Tr | split]]].
  - eapply sameSession_trans; [apply onmessage_transcript_keeps | keeps].
  - simpl. now rewrite Tt.
  - split.
    + intros events. unfold run. cbn [List.fold_left step].
      now rewrite Eo.
    + intros next payload b later Hn Hb Hi Hle.
      match goal with
      | |- context [onmessage _ _ _ ?st] =>
          destruct (onmessage_enqueue st outputCtx next payload b later
                      Hn Hb Hi) as (s'' & E2 & N2 & R2 & C2)
      end.
      exists s''. eexists. split; [exact E2 | ].
      simpl in N2, R2. rewrite Tn in N2, R2. split; [exact N2 | ]. split.
      * rewrite Tt. rewrite <- Q.max_assoc.
        rewrite (Q.max_r now later Hle). reflexivity.
      * rewrite R2. apply setAdd_In. now left.
Qed.

(** *** The transcript *)

Lemma onmessage_transcript_other (outputCtx : nat)
    (message : Live.LiveServerMessage) (now : Q) (s : AppState) :
  transcript (fst (onmessage outputCtx message now s))
  = transcript (onmessage_transcript message s).
Proof.
  unfold onmessage.
  set (s1 := onmessage_transcript message s).
  assert (transcript
            (fst match Live.truthy (Live.firstInlineData message) with
                 | Some base64Audio =>
                     onmessage_audio outputCtx base64Audio now s1
                 | None => (s1, Normal)
                 end) = transcript s1) as H.
  { destruct (Live.truthy (Live.firstInlineData message)) as [payload | ];
      [ | reflexivity].
    unfold onmessage_audio.
    destruct (base64ToUint8Array payload) as [bytes | ]; [ | reflexivity].
    destruct (decodeAudioData bytes outputCtx 24000 1); reflexivity. }
  destruct (match Live.truthy (Live.firstInlineData message) with
            | Some base64Audio => onmessage_audio outputCtx base64Audio now s1
            | None => (s1, Normal)
            end) as [s2 [ | e]]; simpl in H; [ | exact H].
  destruct (Live.isInterrupted message); [ | exact H].
  unfold onmessage_interrupted.
  destruct (stopAll (sourcesRef s2) (nodes s2)) as [ns [ | e]]; exact H.
Qed.

Lemma endSession_transcript (s : AppState) :
  transcript (fst (endSession s)) = transcript s.
Proof.
  rewrite endSession_unfold.
  destruct (released_fields s) as (_ & _ & _ & _ & _ & Ht & _).
  destruct (stopAll (sourcesRef s) (nodes s)) as [ns [ | e]]; simpl; exact Ht.
Qed.

Lemma step_transcript (s : AppState) (e : Event) :
  transcript (step s e) = transcript s ++ receivedTexts [e].
Proof.
  unfold receivedTexts. simpl. rewrite List.app_nil_r.
  destruct e; simpl; try (now rewrite List.app_nil_r).
  - unfold handleStart. destruct generated; simpl; now rewrite List.app_nil_r.
  - unfold startLiveSession.
    destruct (config s); [ | now rewrite List.app_nil_r].
    destruct (questions s); simpl; now rewrite List.app_nil_r.
  - unfold startLiveSession_resume.
    destruct (pendingMicrophone s); [now rewrite List.app_nil_r | ].
    destruct mic; simpl; now rewrite List.app_nil_r.
  - rewrite onmessage_transcript_other. unfold onmessage_transcript.
    destruct (Live.truthy (Live.firstText message)); simpl;
      [reflexivity | now rewrite List.app_nil_r].
  - rewrite List.app_nil_r. unfold handleEndGame.
    pose proof (endSession_transcript s) as H.
    destruct (endSession s) as [s1 [ | e]]; simpl in *; [ | exact H].
    destruct (questions s1); exact H.
  - rewrite List.app_nil_r.
    destruct (handleEndGame_resume_cases response s)
      as [(_ & ->) | (waiting & _ & [-> | [-> | (buffer & _ & ->)]])];
      reflexivity.
  - rewrite List.app_nil_r. apply endSession_transcript.
Qed.

Lemma textFragments_single (p : Live.Part) (interrupted : option bool) :
  Live.textFragments
    (Live.mkMessage
       (Some (Live.mkServerContent (Some (Live.mkContent (Some [p])))
                interrupted)))
  = match Live.truthy (Live.text p) with
    | Some t => [t]
    | None => []
    end.
Proof. cbn. now rewrite List.app_nil_r. Qed.

(** C7 (as amended).  A message whose first part carries a non-empty text
    appends exactly one entry, with role [model] and that text; a message
    whose first part carries no text, or an empty one, leaves the transcript
    as it is, whatever its other parts carry.  Over any sequence of events
    the transcript is the earlier transcript followed by the entries of the
    first-part texts received, in the order of receipt: no entry is changed
    or removed.  For a message of one part, these are all the text fragments
    of the message. *)
Theorem transcript_appends_first_part_text :
  (forall (s : AppState) (outputCtx : nat) (message : Live.LiveServerMessage)
          (now : Q) (t : string),
     Live.truthy (Live.firstText message) = Some t ->
     transcript (fst (onmessage outputCtx message now s))
     = transcript s ++ [mkEntry model t]) /\
  (forall (s : AppState) (outputCtx : nat) (message : Live.LiveServerMessage)
          (now : Q),
     Live.truthy (Live.firstText message) = None ->
     transcript (fst (onmessage outputCtx message now s)) = transcript s) /\
  (forall (events : list Event) (s : AppState),
     transcript (run events s) = transcript s ++ receivedTexts events) /\
  (forall (s : AppState) (outputCtx : nat) (p : Live.Part)
          (interrupted : option bool) (now : Q),
     let message :=
       Live.mkMessage
         (Some (Live.mkServerContent (Some (Live.mkContent (Some [p])))
                  interrupted)) in
     transcript (fst (onmessage outputCtx message now s))
     = transcript s
       ++ List.map (mkEntry model) (Live.textFragments message)).
Proof.
  split; [ | split; [ | split]].
  - intros s outputCtx message now t Ht.
    rewrite onmessage_transcript_other. unfold onmessage_transcript.
    now rewrite Ht.
  - intros s outputCtx message now Ht.
    rewrite onmessage_transcript_other. unfold onmessage_transcript.
    now rewrite Ht.
  - induction events as [| e events IH]; intros s.
    + simpl. now rewrite List.app_nil_r.
    + change (run (e :: events) s) with (run events (step s e)).
      rewrite IH, step_transcript, <- List.app_assoc.
      f_equal. unfold receivedTexts. simpl. now rewrite List.app_nil_r.
  - intros s outputCtx p interrupted now message.
    rewrite onmessage_transcript_other. unfold onmessage_transcript.
    unfold message. rewrite textFragments_single.
    change (Live.firstText _) with (Live.text p).
    destruct (Live.truthy (Live.text p)); simpl;
      [reflexivity | now rewrite List.app_nil_r].
Qed.

(** *** Starting without a microphone *)

(** C8.  With a configuration and at least one question, so that the
    microphone is requested at all: when the request is refused, the error
    "Microphone access denied or API error." is shown, the phase is back to
    [SETUP], and no live session was opened (nor a capture stream, nor the
    connection flag set).  The same holds whenever the refusal reaches a
    suspended call, whatever happened while it was suspended. *)
Theorem microphone_denied_returns_to_setup (s : AppState)
    (cfg : TriviaConfig) (q : GeneratedQuestion) (qs : list GeneratedQuestion) :
  config s = Some cfg ->
  questions s = q :: qs ->
  (let s' := startLiveSession_resume MicDenied (startLiveSession s) in
   error s' = Some "Microphone access denied or API error." /\
   phase s' = SETUP /\
   sessions s' = sessions s /\
   streams s' = streams s /\
   isConnected s' = isConnected s) /\
  (forall later : AppState,
     pendingMicrophone later <> 0%nat ->
     let s' := startLiveSession_resume MicDenied later in
     error s' = Some "Microphone access denied or API error." /\
     phase s' = SETUP /\
     sessions s' = sessions later /\
     streams s' = streams later /\
     isConnected s' = isConnected later).
Proof.
  intros Hc Hq. split.
  - unfold startLiveSession_resume, startLiveSession. rewrite Hc, Hq. simpl.
    repeat split; reflexivity.
  - intros later Hp. unfold startLiveSession_resume.
    destruct (pendingMicrophone later); [contradiction | ]. simpl.
    repeat split; reflexivity.
Qed.

End WithAudioUtils.

(** C4.  [endSession] never writes [nextStartTime], whereas the
    interruption handler resets it.  After a one-second buffer was scheduled
    at clock 0, [endSession] completes, empties the registry, stops the
    source and closes the output context, but leaves [nextStartTime] at 1
    where the interruption handler leaves 0; and in the session opened next,
    whose output clock starts again at 0, the first fragment received at
    clock 0 is scheduled at 1. *)
Theorem endSession_keeps_nextStartTime :
  (forall s : AppState,
     nextStartTimeRef (fst (endSession s)) = nextStartTimeRef s) /\
  (snd (endSession Scenario.tonePlaying) = Normal /\
   sourcesRef (fst (endSession Scenario.tonePlaying)) = [] /\
   stopped (fst (endSession Scenario.tonePlaying)) 0 = true /\
   contextClosed (fst (endSession Scenario.tonePlaying)) 1 = true) /\
  (nextStartTimeRef (fst (endSession Scenario.tonePlaying)) == 1)%Q /\
  nextStartTimeRef (fst (onmessage_interrupted Scenario.tonePlaying)) = 0%Q /\
  (exists t,
     startAt
       (fst (onmessage (audioUtils := Scenario.toneAudioUtils) 3
               (Scenario.audioMessage "B2") 0%Q Scenario.secondSession)) 1
     = Some t /\ (t == 1)%Q /\ ~ (t == 0)%Q).
Proof.
  split; [exact endSession_nextStartTime | ].
  split; [repeat split | ].
  split; [reflexivity | ]. split; [reflexivity | ].
  exists (2 # 2)%Q. split; [reflexivity | ]. split; [reflexivity | ].
  discriminate.
Qed.

(** *** The properties on concrete sessions *)

(** Three silent frames received at clock 0.3 in a fresh session; and the
    scenario of a buffer of 1 s at clock 0, then a buffer of 0.5 s at clock
    0.3. *)
Lemma enqueue_back_to_back_witness :
  (exists s',
     onmessage (audioUtils := specAudioUtils) 1
       (Scenario.audioMessage "AAAAAAAA") (3 # 10)%Q Scenario.connected
     = (s', Normal) /\
     startAt s' (List.length (nodes Scenario.connected))
     = Some (Qmax (nextStartTimeRef Scenario.connected) (3 # 10)%Q) /\
     List.In (List.length (nodes Scenario.connected)) (sourcesRef s') /\
     nextStartTimeRef s'
     = (Qmax (nextStartTimeRef Scenario.connected) (3 # 10)
        + duration (mkAudioBuffer 24000 1 [0 # 32768; 0 # 32768; 0 # 32768]))%Q) /\
  exists t1 t2,
    startAt
      (run (audioUtils := Scenario.toneAudioUtils)
         [EvMessage 1 (Scenario.audioMessage "B1") 0%Q;
          EvMessage 1 (Scenario.audioMessage "B2") (3 # 10)%Q]
         Scenario.connected) 0 = Some t1 /\
    startAt
      (run (audioUtils := Scenario.toneAudioUtils)
         [EvMessage 1 (Scenario.audioMessage "B1") 0%Q;
          EvMessage 1 (Scenario.audioMessage "B2") (3 # 10)%Q]
         Scenario.connected) 1 = Some t2 /\
    (t1 == 0)%Q /\ (t2 == 1)%Q /\
    (t2 == t1 + duration (mkAudioBuffer 2 1 [0; 0]%Q))%Q /\
    (nextStartTimeRef
       (run (audioUtils := Scenario.toneAudioUtils)
          [EvMessage 1 (Scenario.audioMessage "B1") 0%Q;
           EvMessage 1 (Scenario.audioMessage "B2") (3 # 10)%Q]
          Scenario.connected) == 3 # 2)%Q.
Proof.
  split.
  - apply (proj1 (enqueue_back_to_back (audioUtils := specAudioUtils))
             Scenario.connected 1%nat (Scenario.audioMessage "AAAAAAAA")
             "AAAAAAAA");
      reflexivity.
  - apply (proj2 (enqueue_back_to_back (audioUtils := Scenario.toneAudioUtils))
             Scenario.connected 1%nat "B1" "B2"
             (mkAudioBuffer 2 1 [0; 0]%Q) (mkAudioBuffer 2 1 [0]%Q));
      reflexivity.
Defined.

(** Three sources registered, then a message with the interruption flag. *)
Lemma interruption_stops_all_and_resets_witness :
  List.length (sourcesRef Scenario.threePlaying) = 3%nat /\
  exists s',
    onmessage (audioUtils := specAudioUtils) 1 Scenario.interruptedMessage
      (1 # 1000)%Q Scenario.threePlaying = (s', Normal) /\
    (forall i, List.In i (sourcesRef Scenario.threePlaying) ->
               stopped s' i = true) /\
    List.length (sourcesRef s') = 0%nat /\
    nextStartTimeRef s' = 0%Q.
Proof.
  split; [reflexivity | ].
  apply (proj2 (interruption_stops_all_and_resets
                  (audioUtils := specAudioUtils) Scenario.threePlaying
                  eq_refl));
    reflexivity.
Defined.

(** C5 fails as stated: in a connected session (phase [PLAYING], flag set)
    the transport-closed callback leaves the phase at [PLAYING], the output
    context open and the capture track live; the transport-error callback
    leaves the phase at [PLAYING] as well. *)
Lemma transport_close_does_not_end_session :
  (phase Scenario.connected = PLAYING /\
   isConnected Scenario.connected = true) /\
  phase (onclose Scenario.connected) = PLAYING /\
  phase (onclose Scenario.connected) <> ENDED /\
  contextClosed (onclose Scenario.connected) 1 = false /\
  streamStopped (onclose Scenario.connected) 0 = false /\
  phase (onerror Scenario.connected) <> ENDED.
Proof. repeat split; try reflexivity; discriminate. Qed.

(** A close and an error in a connected session. *)
Lemma transport_events_keep_phase_and_resources_witness :
  phase (run (audioUtils := specAudioUtils) [EvClose; EvError]
           Scenario.connected) = phase Scenario.connected /\
  contexts (run (audioUtils := specAudioUtils) [EvClose; EvError]
              Scenario.connected) = contexts Scenario.connected /\
  streams (run (audioUtils := specAudioUtils) [EvClose; EvError]
             Scenario.connected) = streams Scenario.connected /\
  sessions (run (audioUtils := specAudioUtils) [EvClose; EvError]
              Scenario.connected) = sessions Scenario.connected.
Proof.
  apply (proj2 (proj2 (transport_events_keep_phase_and_resources
                         (audioUtils := specAudioUtils)))
           [EvClose; EvError] Scenario.connected).
  reflexivity.
Defined.

(** A payload of three bytes is not a whole number of 16-bit samples. *)
Lemma undecodable_fragment_is_skipped_witness :
  exists s' e,
    onmessage (audioUtils := specAudioUtils) 1 (Scenario.audioMessage "AAAA")
      (1 # 2)%Q Scenario.connected = (s', Throw e) /\
    sameSession Scenario.connected s' /\
    nodes s' = nodes Scenario.connected /\
    sourcesRef s' = sourcesRef Scenario.connected /\
    nextStartTimeRef s'
    = Qmax (nextStartTimeRef Scenario.connected) (1 # 2)%Q /\
    (forall events : list Event,
       run (audioUtils := specAudioUtils)
         (EvMessage 1 (Scenario.audioMessage "AAAA") (1 # 2)%Q :: events)
         Scenario.connected
       = run (audioUtils := specAudioUtils) events s') /\
    (forall (next : Live.LiveServerMessage) (payload : string)
            (b : AudioBuffer) (later : Q),
       Live.truthy (Live.firstInlineData next) = Some payload ->
       decodePayload (audioUtils := specAudioUtils) 1 payload = Some b ->
       Live.isInterrupted next = false ->
       (1 # 2 <= later)%Q ->
       exists s'' t,
         onmessage (audioUtils := specAudioUtils) 1 next later s'
         = (s'', Normal) /\
         nodes s''
         = nodes Scenario.connected ++ [mkNode 1 b (Some t) false] /\
         (t == Qmax (nextStartTimeRef Scenario.connected) later)%Q /\
         List.In (List.length (nodes Scenario.connected)) (sourcesRef s'')).
Proof.
  apply (undecodable_fragment_is_skipped (audioUtils := specAudioUtils)
           Scenario.connected 1%nat (Scenario.audioMessage "AAAA") "AAAA"
           (1 # 2)%Q);
    reflexivity.
Defined.

(** C7 fails as stated: a message whose second part carries the text
    "second" carries one text fragment, and handling it in a connected
    session appends nothing to the transcript. *)
Lemma later_part_text_is_dropped :
  Live.textFragments (Scenario.laterTextMessage "second") = ["second"] /\
  isConnected Scenario.connected = true /\
  transcript Scenario.connected = [] /\
  transcript
    (fst (onmessage (audioUtils := specAudioUtils) 1
            (Scenario.laterTextMessage "second") 0%Q Scenario.connected))
  = [].
Proof. repeat split; reflexivity. Qed.

(** The greeting of the host is appended; a message without text in its
    first part appends nothing. *)
Lemma transcript_appends_first_part_text_witness :
  transcript
    (fst (onmessage (audioUtils := specAudioUtils) 1
            (Scenario.textMessage "Hello!") 0%Q Scenario.connected))
  = transcript Scenario.connected ++ [mkEntry model "Hello!"] /\
  transcript
    (fst (onmessage (audioUtils := specAudioUtils) 1
            (Scenario.laterTextMessage "second") 0%Q Scenario.connected))
  = transcript Scenario.connected.
Proof.
  split.
  - apply (proj1 (transcript_appends_first_part_text
                    (audioUtils := specAudioUtils))
             Scenario.connected 1%nat (Scenario.textMessage "Hello!") 0%Q
             "Hello!").
    reflexivity.
  - apply (proj1 (proj2 (transcript_appends_first_part_text
                           (audioUtils := specAudioUtils)))
             Scenario.connected 1%nat (Scenario.laterTextMessage "second")
             0%Q).
    reflexivity.
Defined.

(** Questions are ready and the microphone is refused. *)
Lemma microphone_denied_returns_to_setup_witness :
  error (startLiveSession_resume MicDenied (startLiveSession Scenario.ready))
  = Some "Microphone access denied or API error." /\
  phase (startLiveSession_resume MicDenied (startLiveSession Scenario.ready))
  = SETUP /\
  sessions (startLiveSession_resume MicDenied (startLiveSession Scenario.ready))
  = sessions Scenario.ready /\
  streams (startLiveSession_resume MicDenied (startLiveSession Scenario.ready))
  = streams Scenario.ready /\
  isConnected
    (startLiveSession_resume MicDenied (startLiveSession Scenario.ready))
  = isConnected Scenario.ready.
Proof.
  apply (proj1 (microphone_denied_returns_to_setup Scenario.ready
                  Scenario.catsConfig Scenario.catsQuestion []
                  eq_refl eq_refl)).
Defined.

End AppFacts.

(** ** Invariants of the orchestrator *)

Module AppInvariants.

Import Codec App Props Invariants AppFacts.

(** *** Stores under [stopAll] and [update] *)

Lemma map_update {A B : Type} (g : A -> B) (f : A -> A) (i : nat)
    (l : list A) :
  (forall x, g (f x) = g x) -> List.map g (update i f l) = List.map g l.
Proof.
  intros H. revert i. induction l as [| x l IH]; intros [| i]; simpl;
    try reflexivity.
  - now rewrite H.
  - now rewrite IH.
Qed.

Lemma Forall_update {A : Type} (P : A -> Prop) (f : A -> A) (i : nat)
    (l : list A) :
  List.Forall P l ->
  (forall x, List.nth_error l i = Some x -> P (f x)) ->
  List.Forall P (update i f l).
Proof.
  intros Hl. revert i. induction Hl as [| x l Hx Hl IH]; intros [| i] Hf;
    simpl; constructor; auto.
Qed.

(** Stopping sources changes neither their start times nor their buffers,
    whichever way it completes. *)
Lemma stopAll_nodeStart (ids : list nat) (ns : list SourceNode) :
  List.map nodeStart (fst (stopAll ids ns)) = List.map nodeStart ns /\
  List.map nodeBuffer (fst (stopAll ids ns)) = List.map nodeBuffer ns.
Proof.
  revert ns. induction ids as [| i ids IH]; intros ns; simpl.
  - split; reflexivity.
  - unfold stopNode.
    destruct (List.nth_error ns i) as [n | ]; [ | split; reflexivity].
    destruct (nodeStart n); [ | split; reflexivity].
    destruct (IH (update i
                    (fun n0 => mkNode (nodeContext n0) (nodeBuffer n0)
                                      (nodeStart n0) true) ns)) as [A B].
    rewrite A, B. split; apply map_update; reflexivity.
Qed.

Lemma startAt_map (s s' : AppState) :
  List.map nodeStart (nodes s') = List.map nodeStart (nodes s) ->
  forall i, startAt s' i = startAt s i.
Proof.
  intros H i. unfold startAt.
  pose proof (List.nth_error_map nodeStart i (nodes s')) as E1.
  pose proof (List.nth_error_map nodeStart i (nodes s)) as E2.
  rewrite H, E2 in E1.
  destruct (List.nth_error (nodes s') i), (List.nth_error (nodes s) i);
    simpl in E1; congruence.
Qed.

Lemma sourceEnd_map (s s' : AppState) :
  List.map nodeStart (nodes s') = List.map nodeStart (nodes s) ->
  List.map nodeBuffer (nodes s') = List.map nodeBuffer (nodes s) ->
  forall i, sourceEnd s' i = sourceEnd s i.
Proof.
  intros Hs Hb i. unfold sourceEnd.
  pose proof (List.nth_error_map nodeStart i (nodes s')) as E1.
  pose proof (List.nth_error_map nodeStart i (nodes s)) as E2.
  pose proof (List.nth_error_map nodeBuffer i (nodes s')) as F1.
  pose proof (List.nth_error_map nodeBuffer i (nodes s)) as F2.
  rewrite Hs, E2 in E1. rewrite Hb, F2 in F1.
  destruct (List.nth_error (nodes s') i) as [n' | ],
           (List.nth_error (nodes s) i) as [n | ];
    simpl in E1, F1; try congruence.
  inversion E1 as [E]. inversion F1 as [F]. now rewrite E, F.
Qed.

(** *** The stores after [endSession] released the references *)

Lemma released_stores (s : AppState) :
  contexts (released s)
  = match audioContextRef s with
    | Some c => update c closeContext (contexts s)
    | None => contexts s
    end /\
  streams (released s)
  = match streamRef s with
    | Some i => update i stopTracks (streams s)
    | None => streams s
    end /\
  sessions (released s)
  = match sessionRef s with
    | Some k => update k closeSession (sessions s)
    | None => sessions s
    end.
Proof.
  unfold released.
  set (s1 := match streamRef s with
             | Some i => setStreams (update i stopTracks (streams s)) s
             | None => s
             end).
  assert (audioContextRef s1 = audioContextRef s /\
          sessionRef s1 = sessionRef s /\
          contexts s1 = contexts s /\ sessions s1 = sessions s /\
          streams s1 = match streamRef s with
                       | Some i => update i stopTracks (streams s)
                       | None => streams s
                       end) as (A1 & A2 & A3 & A4 & A5).
  { unfold s1. destruct (streamRef s); repeat split; reflexivity. }
  clearbody s1. rewrite A1.
  set (s2 := match audioContextRef s with
             | Some c => closeAndDrop c s1
             | None => s1
             end).
  assert (sessionRef s2 = sessionRef s /\
          contexts s2 = match audioContextRef s with
                        | Some c => update c closeContext (contexts s)
                        | None => contexts s
                        end /\
          streams s2 = streams s1 /\ sessions s2 = sessions s1)
    as (B1 & B2 & B3 & B4).
  { unfold s2. destruct (audioContextRef s) as [c | ]; [ | auto].
    destruct (closeAndDrop_fields c s1) as (_ & _ & _ & F & _).
    destruct (closeAndDrop_stores c s1) as (G1 & G2 & G3 & _).
    rewrite F, G1, G2, G3, A3. auto. }
  clearbody s2. rewrite B1.
  destruct (sessionRef s); cbn [contexts streams sessions setSessions];
    rewrite B2, B3, ?B4, A5, ?A4; repeat split; reflexivity.
Qed.

(** The state [endSession] leaves, whichever way it completes. *)
Lemma endSession_shape (s : AppState) :
  exists ns,
    List.map nodeStart ns = List.map nodeStart (nodes s) /\
    List.map nodeBuffer ns = List.map nodeBuffer (nodes s) /\
    (fst (endSession s)
     = setIsConnected false (setSourcesRef [] (setNodes ns (released s))) \/
     fst (endSession s) = setNodes ns (released s)).
Proof.
  rewrite endSession_unfold.
  destruct (stopAll_nodeStart (sourcesRef s) (nodes s)) as [A B].
  destruct (stopAll (sourcesRef s) (nodes s)) as [ns [ | e]];
    exists ns; simpl in *; auto.
Qed.

(** The state [handleEndGame] leaves when it is suspended or returns, from
    the state [endSession] left. *)
Lemma handleEndGame_shape (s : AppState) :
  let s1 := fst (endSession s) in
  fst (handleEndGame s) = s1 \/
  fst (handleEndGame s) = setPhase ENDED s1 \/
  fst (handleEndGame s)
  = setPendingSummary (S (pendingSummary s1)) (setPhase ENDED s1).
Proof.
  unfold handleEndGame.
  destruct (endSession s) as [s1 [ | e]]; cbn [fst]; [ | now left].
  cbn [questions setPhase pendingSummary].
  destruct (questions s1); [right; now left | right; now right].
Qed.

(** *** Induction over the events *)

Section Preservation.

Context {audioUtils : AudioUtils}.

Variable P : AppState -> Prop.

Hypothesis P_phase : forall v s, v <> PLAYING -> P s -> P (setPhase v s).
Hypothesis P_error : forall v s, P s -> P (setError v s).
Hypothesis P_connected : forall v s, P s -> P (setIsConnected v s).
Hypothesis P_transcript : forall v s, P s -> P (setTranscript v s).
Hypothesis P_handleStart :
  forall newConfig generated s, P s -> P (handleStart newConfig generated s).
Hypothesis P_start : forall s, P s -> P (startLiveSession s).
Hypothesis P_microphone :
  forall mic s, P s -> P (startLiveSession_resume mic s).
Hypothesis P_audio :
  forall outputCtx base64Audio now s,
    P s -> P (fst (onmessage_audio outputCtx base64Audio now s)).
Hypothesis P_interrupted : forall s, P s -> P (fst (onmessage_interrupted s)).
Hypothesis P_ended : forall sourceNode s, P s -> P (onended sourceNode s).
Hypothesis P_endSession : forall s, P s -> P (fst (endSession s)).
Hypothesis P_pendingSummary : forall v s, P s -> P (setPendingSummary v s).
Hypothesis P_context :
  forall s, P s -> P (setContexts (contexts s ++ [mkContext 24000 false]) s).
Hypothesis P_summary :
  forall s buffer,
    audioContextRef s <> None ->
    P s ->
    P (setNodes
         (nodes s ++ [mkNode (S (List.length (contexts s))) buffer
                             (Some 0%Q) false])
         (setContexts
            (contexts s ++ [mkContext 24000 false; mkContext 24000 false])
            s)).

Lemma onmessage_preserves (outputCtx : nat)
    (message : Live.LiveServerMessage) (now : Q) (s : AppState) :
  P s -> P (fst (onmessage outputCtx message now s)).
Proof.
  intros H. unfold onmessage.
  assert (P (onmessage_transcript message s)) as H1.
  { unfold onmessage_transcript.
    destruct (Live.truthy (Live.firstText message)); auto. }
  set (s1 := onmessage_transcript message s) in *.
  assert (P (fst match Live.truthy (Live.firstInlineData message) with
                 | Some base64Audio =>
                     onmessage_audio outputCtx base64Audio now s1
                 | None => (s1, Normal)
                 end)) as H2.
  { destruct (Live.truthy (Live.firstInlineData message)); auto. }
  destruct (match Live.truthy (Live.firstInlineData message) with
            | Some base64Audio => onmessage_audio outputCtx base64Audio now s1
            | None => (s1, Normal)
            end) as [s2 [ | e]]; cbn [fst] in *; [ | exact H2].
  destruct (Live.isInterrupted message); [ | exact H2].
  now apply P_interrupted.
Qed.

Lemma handleEndGame_preserves (s : AppState) :
  P s -> P (fst (handleEndGame s)).
Proof.
  intros H. apply P_endSession in H.
  destruct (handleEndGame_shape s) as [E | [E | E]]; rewrite E.
  - exact H.
  - apply P_phase; [discriminate | exact H].
  - apply P_pendingSummary. apply P_phase; [discriminate | exact H].
Qed.

Lemma handleEndGame_resume_preserves (response : option (option string))
    (s : AppState) :
  P s -> P (handleEndGame_resume response s).
Proof.
  intros H.
  destruct (handleEndGame_resume_cases response s)
    as [(_ & ->) | (waiting & _ & [-> | [-> | (buffer & Ha & ->)]])].
  - exact H.
  - now apply P_pendingSummary.
  - now apply P_context, P_pendingSummary.
  - apply P_summary; [exact Ha | now apply P_pendingSummary].
Qed.

Lemma step_preserves (s : AppState) (e : Event) : P s -> P (step s e).
Proof.
  intros H. destruct e; cbn [step].
  - now apply P_handleStart.
  - now apply P_start.
  - now apply P_microphone.
  - apply P_connected, H.
  - now apply onmessage_preserves.
  - apply P_connected, H.
  - apply P_error, H.
  - now apply P_ended.
  - now apply handleEndGame_preserves.
  - now apply handleEndGame_resume_preserves.
  - apply P_phase; [discriminate | exact H].
  - now apply P_endSession.
Qed.

Lemma run_preserves (events : list Event) (s : AppState) :
  P s -> P (run events s).
Proof.
  revert s. induction events as [| e events IH]; intros s H.
  - exact H.
  - apply IH, step_preserves, H.
Qed.

Lemma reachable_preserves (s : AppState) :
  P initial -> reachable s -> P s.
Proof. intros H0 (events & <-). now apply run_preserves. Qed.

End Preservation.

(** *** The registry *)

Lemma NoDup_snoc (n : nat) (l : list nat) :
  List.NoDup l -> ~ List.In n l -> List.NoDup (l ++ [n]).
Proof.
  induction 1 as [| x l Hx Hl IH]; intros Hn; simpl.
  - constructor; [intros [] | constructor].
  - constructor.
    + rewrite List.in_app_iff. intros [H | [H | []]]; [now apply Hx | ].
      apply Hn. now left.
    + apply IH. intros H. apply Hn. now right.
Qed.

Lemma setAdd_NoDup (n : nat) (l : list nat) :
  List.NoDup l -> List.NoDup (setAdd n l).
Proof.
  intros Hl. unfold setAdd.
  destruct (List.existsb (Nat.eqb n) l) eqn:E; [exact Hl | ].
  apply NoDup_snoc; [exact Hl | ].
  intros Hin. assert (List.existsb (Nat.eqb n) l = true) as E'.
  { apply List.existsb_exists. exists n. split; [exact Hin | ].
    apply Nat.eqb_refl. }
  congruence.
Qed.

Lemma registryLive_ok (s : AppState) : registryLive s -> registryOk s.
Proof.
  intros [_ H] i Hi. destruct (H i Hi) as (n & Hn & Hs & _).
  exists n. now split.
Qed.

Section Registry.

Context {audioUtils : AudioUtils}.

Lemma registryLive_audio (outputCtx : nat) (base64Audio : string) (now : Q)
    (s : AppState) :
  registryLive s ->
  registryLive (fst (onmessage_audio outputCtx base64Audio now s)).
Proof.
  intros [Hd Hm].
  destruct (decodePayload outputCtx base64Audio) as [b | ] eqn:E.
  - rewrite (onmessage_audio_decoded _ _ now s b E). cbn [fst]. split.
    + now apply setAdd_NoDup.
    + intros i Hi. cbn [sourcesRef nodes setSourcesRef setNextStartTimeRef
                        setNodes] in *.
      apply setAdd_In in Hi. destruct Hi as [-> | Hi].
      * eexists. split.
        { rewrite List.nth_error_app2, Nat.sub_diag by lia. reflexivity. }
        split; [discriminate | reflexivity].
      * destruct (Hm i Hi) as (n & Hn & Hs & Hp). exists n.
        split; [ | now split].
        rewrite List.nth_error_app1; [exact Hn | ].
        apply List.nth_error_Some. congruence.
  - destruct (onmessage_audio_failed _ _ now s E) as (e & ->).
    split; assumption.
Qed.

(** X4.  In every state the component can be in, the registry holds no
    source twice, and each of its sources exists, was started and was not
    stopped. *)
Theorem registry_sources_are_playing (s : AppState) :
  reachable s -> registryLive s.
Proof.
  apply (reachable_preserves registryLive); try (intros; assumption).
  - intros newConfig generated s0 H. unfold handleStart.
    destruct generated; exact H.
  - intros s0 H. unfold startLiveSession.
    destruct (config s0); [ | exact H].
    destruct (questions s0); exact H.
  - intros mic s0 H. unfold startLiveSession_resume.
    destruct (pendingMicrophone s0); [exact H | ].
    destruct mic; exact H.
  - intros. now apply registryLive_audio.
  - intros s0 H.
    destruct (onmessage_interrupted_ok s0 (registryLive_ok s0 H))
      as (ns' & -> & _).
    split; [constructor | intros i []].
  - intros n s0 [Hd Hm]. split.
    + apply List.NoDup_filter, Hd.
    + intros i Hi. apply Hm. eapply setDelete_In, Hi.
  - intros s0 H.
    destruct (endSession_ok s0 (registryLive_ok s0 H)) as (ns' & -> & _).
    split; [constructor | intros i []].
  - intros s0 buffer _ [Hd Hm]. split; [exact Hd | ].
    intros i Hi. destruct (Hm i Hi) as (n & Hn & Hs & Hp). exists n.
    split; [ | now split].
    cbn [nodes setNodes].
    rewrite List.nth_error_app1; [exact Hn | ].
    apply List.nth_error_Some. congruence.
  - split; [constructor | intros i []].
Qed.

(** The registry is a set. *)
Lemma reachable_NoDup (s : AppState) :
  reachable s -> List.NoDup (sourcesRef s).
Proof.
  apply (reachable_preserves (fun s => List.NoDup (sourcesRef s)));
    try (intros; assumption).
  - intros newConfig generated s0 H. unfold handleStart.
    destruct generated; exact H.
  - intros s0 H. unfold startLiveSession.
    destruct (config s0); [ | exact H].
    destruct (questions s0); exact H.
  - intros mic s0 H. unfold startLiveSession_resume.
    destruct (pendingMicrophone s0); [exact H | ].
    destruct mic; exact H.
  - intros outputCtx base64Audio now s0 H.
    destruct (decodePayload outputCtx base64Audio) as [b | ] eqn:E.
    + rewrite (onmessage_audio_decoded _ _ now s0 b E).
      now apply setAdd_NoDup.
    + destruct (onmessage_audio_failed _ _ now s0 E) as (e & ->). exact H.
  - intros s0 H. unfold onmessage_interrupted.
    destruct (stopAll (sourcesRef s0) (nodes s0)) as [ns [ | e]];
      [constructor | exact H].
  - intros n s0 H. apply List.NoDup_filter, H.
  - intros s0 H. rewrite endSession_unfold.
    destruct (released_fields s0)
      as (_ & _ & _ & _ & _ & _ & _ & _ & _ & R & _).
    destruct (stopAll (sourcesRef s0) (nodes s0)) as [ns [ | e]];
      [constructor | ].
    cbn [fst sourcesRef setNodes]. now rewrite R.
  - constructor.
Qed.

End Registry.

(** *** Times *)

Lemma duration_nonneg (b : AudioBuffer) : (0 <= duration b)%Q.
Proof. unfold duration, Qle. simpl. lia. Qed.

(** A store with one more source at its end. *)
Lemma startAt_append (s s' : AppState) (n : SourceNode) (i : nat) (t : Q) :
  nodes s' = nodes s ++ [n] ->
  startAt s' i = Some t ->
  startAt s i = Some t \/
  (i = List.length (nodes s) /\ nodeStart n = Some t).
Proof.
  intros Hn. unfold startAt. rewrite Hn.
  destruct (Nat.lt_ge_cases i (List.length (nodes s))) as [Hlt | Hge].
  - rewrite List.nth_error_app1 by exact Hlt. now left.
  - rewrite List.nth_error_app2 by exact Hge.
    destruct (i - List.length (nodes s))%nat as [| k] eqn:Ek; simpl.
    + intros H. right. split; [lia | exact H].
    + now destruct k.
Qed.

Lemma startAt_old (s s' : AppState) (extra : list SourceNode) (i : nat) :
  nodes s' = nodes s ++ extra ->
  (i < List.length (nodes s))%nat ->
  startAt s' i = startAt s i /\ sourceEnd s' i = sourceEnd s i.
Proof.
  intros Hn Hi. unfold startAt, sourceEnd. rewrite Hn.
  rewrite List.nth_error_app1 by exact Hi. now split.
Qed.

Lemma started_lt (ns : list SourceNode) (i : nat) :
  started ns i -> (i < List.length ns)%nat.
Proof. intros (n & Hn & _). apply List.nth_error_Some. congruence. Qed.

Lemma onmessage_interrupted_shape (s : AppState) :
  exists ns,
    List.map nodeStart ns = List.map nodeStart (nodes s) /\
    List.map nodeBuffer ns = List.map nodeBuffer (nodes s) /\
    (fst (onmessage_interrupted s)
     = setNextStartTimeRef 0%Q (setSourcesRef [] (setNodes ns s)) \/
     fst (onmessage_interrupted s) = setNodes ns s).
Proof.
  unfold onmessage_interrupted.
  destruct (stopAll_nodeStart (sourcesRef s) (nodes s)) as [A B].
  destruct (stopAll (sourcesRef s) (nodes s)) as [ns [ | e]];
    exists ns; simpl in *; auto.
Qed.

Section Times.

Context {audioUtils : AudioUtils}.

Lemma timesNonneg_audio (outputCtx : nat) (base64Audio : string) (now : Q)
    (s : AppState) :
  timesNonneg s ->
  timesNonneg (fst (onmessage_audio outputCtx base64Audio now s)).
Proof.
  intros [Hn Hs].
  assert (0 <= Qmax (nextStartTimeRef s) now)%Q as HM.
  { eapply Qle_trans; [exact Hn | apply Q.le_max_l]. }
  destruct (decodePayload outputCtx base64Audio) as [b | ] eqn:E.
  - rewrite (onmessage_audio_decoded _ _ now s b E). cbn [fst]. split.
    + cbn [nextStartTimeRef setSourcesRef setNextStartTimeRef].
      pose proof (duration_nonneg b). lra.
    + intros i t Ht.
      eapply startAt_append in Ht; [ | reflexivity].
      destruct Ht as [Ht | [_ Ht]]; [exact (Hs i t Ht) | ].
      cbn [nodeStart] in Ht. inversion Ht; subst. exact HM.
  - destruct (onmessage_audio_failed _ _ now s E) as (e & ->).
    split; [exact HM | exact Hs].
Qed.

(** X3.  In every state the component can be in, [nextStartTime] is not
    negative and no source was started at a negative time, whatever the
    clock readings were. *)
Theorem start_times_never_negative (s : AppState) :
  reachable s -> timesNonneg s.
Proof.
  apply (reachable_preserves timesNonneg); try (intros; assumption).
  - intros newConfig generated s0 H. unfold handleStart.
    destruct generated; exact H.
  - intros s0 H. unfold startLiveSession.
    destruct (config s0); [ | exact H].
    destruct (questions s0); exact H.
  - intros mic s0 H. unfold startLiveSession_resume.
    destruct (pendingMicrophone s0); [exact H | ].
    destruct mic; exact H.
  - intros. now apply timesNonneg_audio.
  - intros s0 [Hn Hs].
    destruct (onmessage_interrupted_shape s0) as (ns & A & _ & [-> | ->]);
      (split; [try exact Hn; apply Qle_refl | ]);
      intros i t Ht;
      erewrite startAt_map in Ht by (cbn [nodes setNextStartTimeRef
                                          setSourcesRef setNodes]; exact A);
      exact (Hs i t Ht).
  - intros s0 [Hn Hs].
    destruct (released_fields s0)
      as (_ & _ & _ & _ & _ & _ & _ & _ & Rn & _ & _ & Rnodes).
    destruct (endSession_shape s0) as (ns & A & _ & [-> | ->]);
      (split;
       [cbn [nextStartTimeRef setIsConnected setSourcesRef setNodes];
        rewrite Rn; exact Hn | ]);
      intros i t Ht;
      erewrite startAt_map in Ht by (cbn [nodes setIsConnected setSourcesRef
                                          setNodes]; exact A);
      exact (Hs i t Ht).
  - intros s0 buffer Href [Hn Hs]. split; [exact Hn | ].
    intros i t Ht.
    eapply (startAt_append
              (setContexts
                 (contexts s0 ++ [mkContext 24000 false; mkContext 24000 false])
                 s0)) in Ht; [ | reflexivity].
    destruct Ht as [Ht | [_ Ht]]; [exact (Hs i t Ht) | ].
    cbn [nodeStart] in Ht. inversion Ht; subst. apply Qle_refl.
  - split; [apply Qle_refl | ].
    intros i t Ht. unfold startAt in Ht. simpl in Ht.
    now destruct i.
Qed.

(** *** No overlap *)

Lemma scheduled_audio (outputCtx : nat) (base64Audio : string) (now : Q)
    (s : AppState) :
  scheduled s ->
  scheduled (fst (onmessage_audio outputCtx base64Audio now s)).
Proof.
  intros [Hok [He Hp]].
  split; [now apply onmessage_audio_registryOk | ].
  pose proof (Q.le_max_l (nextStartTimeRef s) now) as HM.
  destruct (decodePayload outputCtx base64Audio) as [b | ] eqn:E.
  - rewrite (onmessage_audio_decoded _ _ now s b E). cbn [fst].
    set (M := Qmax (nextStartTimeRef s) now) in *.
    set (new := mkNode outputCtx b (Some M) false).
    set (s' := setSourcesRef _ _).
    assert (nodes s' = nodes s ++ [new]) as Hn by reflexivity.
    assert (sourceEnd s' (List.length (nodes s))
            = Some (M + duration b)%Q) as Eend.
    { unfold sourceEnd. rewrite Hn.
      rewrite List.nth_error_app2, Nat.sub_diag by lia. reflexivity. }
    assert (startAt s' (List.length (nodes s)) = Some M) as Estart.
    { unfold startAt. rewrite Hn.
      rewrite List.nth_error_app2, Nat.sub_diag by lia. reflexivity. }
    pose proof (duration_nonneg b) as Hd.
    split.
    + intros i e Hi Hie.
      change (nextStartTimeRef s') with (M + duration b)%Q.
      change (sourcesRef s')
        with (setAdd (List.length (nodes s)) (sourcesRef s)) in Hi.
      apply setAdd_In in Hi. destruct Hi as [-> | Hi].
      * rewrite Eend in Hie. inversion Hie; subst. apply Qle_refl.
      * destruct (startAt_old s s' [new] i Hn (started_lt _ _ (Hok i Hi)))
          as [_ Eq].
        rewrite Eq in Hie. pose proof (He i e Hi Hie). lra.
    + intros i j e t Hi Hj Hij Hie Hjt.
      change (sourcesRef s')
        with (setAdd (List.length (nodes s)) (sourcesRef s)) in Hi, Hj.
      apply setAdd_In in Hi. apply setAdd_In in Hj.
      destruct Hj as [-> | Hj].
      * destruct Hi as [-> | Hi]; [lia | ].
        destruct (startAt_old s s' [new] i Hn (started_lt _ _ (Hok i Hi)))
          as [_ Eq].
        rewrite Eq in Hie. rewrite Estart in Hjt. inversion Hjt; subst.
        pose proof (He i e Hi Hie). lra.
      * pose proof (started_lt _ _ (Hok j Hj)) as Hjl.
        destruct Hi as [-> | Hi]; [lia | ].
        destruct (startAt_old s s' [new] i Hn (started_lt _ _ (Hok i Hi)))
          as [_ Eqi].
        destruct (startAt_old s s' [new] j Hn Hjl) as [Eqj _].
        rewrite Eqi in Hie. rewrite Eqj in Hjt.
        exact (Hp i j e t Hi Hj Hij Hie Hjt).
  - destruct (onmessage_audio_failed _ _ now s E) as (e & ->). cbn [fst].
    split.
    + intros i e0 Hi Hie.
      pose proof (He i e0 Hi Hie).
      cbn [nextStartTimeRef setNextStartTimeRef]. lra.
    + exact Hp.
Qed.

Lemma scheduled_empty (s : AppState) : sourcesRef s = [] -> scheduled s.
Proof.
  intros E. unfold scheduled, registryOk, noOverlap. rewrite E.
  split; [intros i [] | split]; [intros i e [] | intros i j e t []].
Qed.

(** X2.  In every state the component can be in, no registered source plays
    beyond [nextStartTime], and of any two registered sources the one
    created first ends no later than the other starts: the sources in the
    registry never overlap. *)
Theorem registered_sources_never_overlap (s : AppState) :
  reachable s -> noOverlap s.
Proof.
  intros Hr. apply (reachable_preserves scheduled) in Hr;
    [exact (proj2 Hr) | try (intros; assumption) ..].
  - intros newConfig generated s0 H. unfold handleStart.
    destruct generated; exact H.
  - intros s0 H. unfold startLiveSession.
    destruct (config s0); [ | exact H].
    destruct (questions s0); exact H.
  - intros mic s0 H. unfold startLiveSession_resume.
    destruct (pendingMicrophone s0); [exact H | ].
    destruct mic; exact H.
  - intros. now apply scheduled_audio.
  - intros s0 [Hok _].
    destruct (onmessage_interrupted_ok s0 Hok) as (ns' & -> & _).
    now apply scheduled_empty.
  - intros n s0 [Hok [He Hp]].
    split; [ | split].
    + intros i Hi. apply Hok. eapply setDelete_In, Hi.
    + intros i e Hi. apply He. eapply setDelete_In, Hi.
    + intros i j e t Hi Hj Hij Hie Hjt.
      apply (Hp i j e t (setDelete_In n i _ Hi) (setDelete_In n j _ Hj) Hij);
        assumption.
  - intros s0 [Hok _].
    destruct (endSession_ok s0 Hok) as (ns' & -> & _).
    now apply scheduled_empty.
  - intros s0 buffer Href [Hok [He Hp]].
    set (s' := setNodes _ _).
    assert (nodes s' = nodes s0 ++ [mkNode (S (List.length (contexts s0)))
                                      buffer (Some 0%Q) false]) as Hn
      by reflexivity.
    split; [ | split].
    + intros i Hi. apply started_app. now apply Hok.
    + intros i e Hi Hie.
      destruct (startAt_old s0 s' _ i Hn (started_lt _ _ (Hok i Hi)))
        as [_ Eq].
      rewrite Eq in Hie. exact (He i e Hi Hie).
    + intros i j e t Hi Hj Hij Hie Hjt.
      destruct (startAt_old s0 s' _ i Hn (started_lt _ _ (Hok i Hi)))
        as [_ Eqi].
      destruct (startAt_old s0 s' _ j Hn (started_lt _ _ (Hok j Hj)))
        as [Eqj _].
      rewrite Eqi in Hie. rewrite Eqj in Hjt.
      exact (Hp i j e t Hi Hj Hij Hie Hjt).
  - now apply scheduled_empty.
Qed.

End Times.

(** *** Sessions, references and the phase *)

Lemma startLiveSession_cases (s : AppState) :
  startLiveSession s = s \/
  (config s <> None /\ questions s <> [] /\
   startLiveSession s
   = setPendingMicrophone (S (pendingMicrophone s))
       (setAudioContextRef (Some (S (List.length (contexts s))))
          (setContexts
             (contexts s ++ [mkContext 16000 false; mkContext 24000 false])
             (setPhase PLAYING s)))).
Proof.
  unfold startLiveSession.
  destruct (config s); [ | now left].
  destruct (questions s); [now left | ].
  right. split; [discriminate | ]. split; [discriminate | reflexivity].
Qed.

Lemma startLiveSession_resume_cases (mic : MicOutcome) (s : AppState) :
  (pendingMicrophone s = 0%nat /\ startLiveSession_resume mic s = s) \/
  exists waiting,
    pendingMicrophone s = S waiting /\
    (startLiveSession_resume mic s
     = setSessions (sessions s ++ [mkSession false])
         (setStreamRef (Some (List.length (streams s)))
            (setStreams (streams s ++ [mkStream [live]])
               (setPendingMicrophone waiting s))) \/
     startLiveSession_resume mic s
     = setPhase SETUP
         (setError (Some "Microphone access denied or API error.")
            (setPendingMicrophone waiting s))).
Proof.
  unfold startLiveSession_resume.
  destruct (pendingMicrophone s) as [| waiting]; [now left | right].
  exists waiting. split; [reflexivity | ].
  destruct mic; [left | right]; reflexivity.
Qed.

Lemma endSession_fields (s : AppState) :
  phase (fst (endSession s)) = phase s /\
  config (fst (endSession s)) = config s /\
  questions (fst (endSession s)) = questions s /\
  audioContextRef (fst (endSession s)) = audioContextRef s /\
  streamRef (fst (endSession s)) = streamRef s /\
  sessionRef (fst (endSession s)) = sessionRef s /\
  contexts (fst (endSession s)) = contexts (released s) /\
  streams (fst (endSession s)) = streams (released s) /\
  sessions (fst (endSession s)) = sessions (released s).
Proof.
  destruct (released_fields s)
    as (A1 & A2 & A3 & _ & _ & _ & A7 & A8 & _ & _ & A11 & _).
  destruct (endSession_shape s) as (ns & _ & _ & [-> | ->]);
    cbn [phase config questions audioContextRef streamRef sessionRef contexts
         streams sessions setIsConnected setSourcesRef setNodes];
    repeat split; assumption.
Qed.

(** The handlers that are suspended, and the rejections nobody handled,
    under [endSession] and under the blocks of [onmessage]. *)
Lemma released_pending (s : AppState) :
  pendingMicrophone (released s) = pendingMicrophone s /\
  pendingSummary (released s) = pendingSummary s /\
  unhandledRejections (released s)
  = match audioContextRef s with
    | Some c =>
        if contextClosed s c
        then unhandledRejections s ++ ["InvalidStateError"]
        else unhandledRejections s
    | None => unhandledRejections s
    end.
Proof.
  unfold released, closeAndDrop, closeRejects, contextClosed.
  destruct (streamRef s) as [i | ]; cbn;
    (destruct (audioContextRef s) as [c | ]; cbn;
     [destruct (List.nth_error (contexts s) c) as [ctx | ];
      [destruct (ctxClosed ctx) | ]; cbn | ]);
    destruct (sessionRef s) as [k | ]; cbn; repeat split; reflexivity.
Qed.




Section Lifecycle.

Context {audioUtils : AudioUtils}.

(** X5.  In every state the component can be in, no session object is held
    in [sessionRef], and every live session that was opened is still open:
    nothing the component does closes a live session. *)
Theorem live_sessions_are_never_closed (s : AppState) :
  reachable s -> sessionsOpen s.
Proof.
  apply (reachable_preserves sessionsOpen); try (intros; assumption).
  - intros newConfig generated s0 H. unfold handleStart.
    destruct generated; exact H.
  - intros s0 [Hr Hs].
    destruct (startLiveSession_cases s0) as [-> | (_ & _ & ->)]; now split.
  - intros mic s0 [Hr Hs].
    destruct (startLiveSession_resume_cases mic s0)
      as [(_ & ->) | (waiting & _ & [-> | ->])];
      [now split | | now split].
    split; [exact Hr | ].
    cbn [sessions setSessions]. apply List.Forall_app. split; [exact Hs | ].
    now constructor.
  - intros outputCtx base64Audio now s0 H.
    destruct (onmessage_audio_keeps outputCtx base64Audio now s0)
      as (_ & (_ & _ & A & _ & _ & B)).
    destruct H as [Hr Hs]. split; congruence.
  - intros s0 H.
    destruct (onmessage_interrupted_keeps s0) as (_ & (_ & _ & A & _ & _ & B)).
    destruct H as [Hr Hs]. split; congruence.
  - intros s0 [Hr Hs].
    destruct (endSession_fields s0) as (_ & _ & _ & _ & _ & A & _ & _ & B).
    destruct (released_stores s0) as (_ & _ & C).
    rewrite Hr in C. split; congruence.
  - split; [reflexivity | constructor].
Qed.

(** X6.  In every state the component can be in, [audioContextRef], when
    set, points at an existing 24 kHz context and [streamRef], when set, at
    an existing stream; and every 16 kHz (capture) context ever created is
    still open: nothing the component does closes a capture context. *)
Theorem capture_contexts_are_never_closed (s : AppState) :
  reachable s -> refsValid s.
Proof.
  apply (reachable_preserves refsValid); try (intros; assumption).
  - intros newConfig generated s0 H. unfold handleStart.
    destruct generated; exact H.
  - intros s0 (Hc & Hm & Hf).
    destruct (startLiveSession_cases s0) as [-> | (_ & _ & ->)];
      [now split | ].
    split; [ | split].
    + intros c Ec.
      cbn [audioContextRef setAudioContextRef setPendingMicrophone] in Ec.
      inversion Ec; subst. exists (mkContext 24000 false).
      split; [ | reflexivity].
      cbn [contexts setAudioContextRef setContexts setPendingMicrophone].
      rewrite List.nth_error_app2 by lia.
      replace (S (List.length (contexts s0)) - List.length (contexts s0))%nat
        with 1%nat by lia.
      reflexivity.
    + exact Hm.
    + cbn [contexts setAudioContextRef setContexts setPendingMicrophone].
      apply List.Forall_app. split; [exact Hf | ].
      constructor; [reflexivity | ].
      constructor; [discriminate | constructor].
  - intros mic s0 (Hc & Hm & Hf).
    destruct (startLiveSession_resume_cases mic s0)
      as [(_ & ->) | (waiting & _ & [-> | ->])].
    + now split.
    + split; [exact Hc | ]. split; [ | exact Hf].
      intros i Ei. cbn [streamRef setSessions setStreamRef] in Ei.
      inversion Ei; subst.
      cbn [streams setSessions setStreamRef setStreams].
      rewrite List.length_app. simpl. lia.
    + split; [exact Hc | ]. split; [exact Hm | exact Hf].
  - intros outputCtx base64Audio now s0 (Hc & Hm & Hf).
    destruct (onmessage_audio_keeps outputCtx base64Audio now s0)
      as (_ & (A & B & _ & C & D & _)).
    unfold refsValid. rewrite A, B, C, D. now split.
  - intros s0 (Hc & Hm & Hf).
    destruct (onmessage_interrupted_keeps s0) as (_ & (A & B & _ & C & D & _)).
    unfold refsValid. rewrite A, B, C, D. now split.
  - intros s0 (Hc & Hm & Hf).
    destruct (endSession_fields s0) as (_ & _ & _ & A & B & _ & C & D & _).
    destruct (released_stores s0) as (Rc & Rs & _).
    unfold refsValid. rewrite A, B, C, D, Rc, Rs. split; [ | split].
    + intros c Ec. destruct (Hc c Ec) as (ctx & Hx & Hrate).
      rewrite Ec. exists (closeContext ctx).
      rewrite nth_error_update, Nat.eqb_refl, Hx. now split.
    + intros i Ei. rewrite Ei, update_length. now apply Hm.
    + destruct (audioContextRef s0) as [c | ]; [ | exact Hf].
      apply Forall_update; [exact Hf | ].
      intros ctx Hx. destruct (Hc c eq_refl) as (ctx' & Hx' & Hrate).
      assert (ctx' = ctx) by congruence. subst ctx'.
      cbn [ctxSampleRate closeContext]. rewrite Hrate. discriminate.
  - intros s0 (Hc & Hm & Hf). split; [ | split; [exact Hm | ]].
    + intros c Ec. destruct (Hc c Ec) as (ctx & Hx & Hrate).
      exists ctx. split; [ | exact Hrate].
      cbn [contexts setContexts].
      rewrite List.nth_error_app1; [exact Hx | ].
      apply List.nth_error_Some. congruence.
    + cbn [contexts setContexts]. apply List.Forall_app.
      split; [exact Hf | ]. constructor; [discriminate | constructor].
  - intros s0 buffer Href (Hc & Hm & Hf). split; [ | split; [exact Hm | ]].
    + intros c Ec. destruct (Hc c Ec) as (ctx & Hx & Hrate).
      exists ctx. split; [ | exact Hrate].
      cbn [contexts setContexts setNodes].
      rewrite List.nth_error_app1; [exact Hx | ].
      apply List.nth_error_Some. congruence.
    + cbn [contexts setContexts setNodes]. apply List.Forall_app.
      split; [exact Hf | ].
      constructor; [discriminate | ].
      constructor; [discriminate | constructor].
  - split; [discriminate | split; [discriminate | constructor]].
Qed.

(** The references stay within the stores. *)
Lemma reachable_refs_in_range (s : AppState) :
  reachable s ->
  (forall c, audioContextRef s = Some c ->
             (c < List.length (contexts s))%nat) /\
  (forall i, streamRef s = Some i -> (i < List.length (streams s))%nat).
Proof.
  apply (reachable_preserves
           (fun s =>
              (forall c, audioContextRef s = Some c ->
                         (c < List.length (contexts s))%nat) /\
              (forall i, streamRef s = Some i ->
                         (i < List.length (streams s))%nat)));
    try (intros; assumption).
  - intros newConfig generated s0 H. unfold handleStart.
    destruct generated; exact H.
  - intros s0 [Hc Hm].
    destruct (startLiveSession_cases s0) as [-> | (_ & _ & ->)];
      [now split | ].
    cbn [audioContextRef streamRef contexts streams setAudioContextRef
         setContexts setPhase setPendingMicrophone].
    split; [ | exact Hm].
    intros c Ec. inversion Ec; subst. rewrite List.length_app. simpl. lia.
  - intros mic s0 [Hc Hm].
    destruct (startLiveSession_resume_cases mic s0)
      as [(_ & ->) | (waiting & _ & [-> | ->])];
      [now split | | now split].
    cbn [audioContextRef streamRef contexts streams setSessions setStreamRef
         setStreams setPendingMicrophone].
    split; [exact Hc | ].
    intros i Ei. inversion Ei; subst. rewrite List.length_app. simpl. lia.
  - intros outputCtx base64Audio now s0 H.
    destruct (onmessage_audio_keeps outputCtx base64Audio now s0)
      as (_ & (A & B & _ & C & D & _)).
    rewrite A, B, C, D. exact H.
  - intros s0 H.
    destruct (onmessage_interrupted_keeps s0) as (_ & (A & B & _ & C & D & _)).
    rewrite A, B, C, D. exact H.
  - intros s0 [Hc Hm].
    destruct (endSession_fields s0) as (_ & _ & _ & A & B & _ & C & D & _).
    destruct (released_stores s0) as (Rc & Rs & _).
    rewrite A, B, C, D, Rc, Rs. split.
    + intros c Ec. rewrite Ec, update_length. now apply Hc.
    + intros i Ei. rewrite Ei, update_length. now apply Hm.
  - intros s0 [Hc Hm]. split; [ | exact Hm].
    intros c Ec. cbn [contexts setContexts]. rewrite List.length_app.
    pose proof (Hc c Ec). simpl. lia.
  - intros s0 buffer Href [Hc Hm]. split; [ | exact Hm].
    intros c Ec. cbn [contexts setContexts setNodes]. rewrite List.length_app.
    pose proof (Hc c Ec). simpl. lia.
  - split; intros x Hx; discriminate Hx.
Qed.


(** *** Ending the game *)

Lemma streamStopped_stopTracks (m : MediaStream) :
  List.forallb (fun t => match t with ended => true | live => false end)
    (tracks (stopTracks m)) = true.
Proof.
  destruct m as [ts]. unfold stopTracks. cbn [tracks].
  induction ts as [| t ts IH]; [reflexivity | exact IH].
Qed.

(** What follows [endSession] in [handleEndGame], up to the [await]. *)
Lemma handleEndGame_after (s s1 : AppState) :
  endSession s = (s1, Normal) ->
  exists s',
    handleEndGame s = (s', Normal) /\
    phase s' = ENDED /\
    isConnected s' = isConnected s1 /\
    sourcesRef s' = sourcesRef s1 /\
    nextStartTimeRef s' = nextStartTimeRef s1 /\
    transcript s' = transcript s1 /\
    streams s' = streams s1 /\
    contexts s' = contexts s1 /\
    nodes s' = nodes s1 /\
    pendingSummary s'
    = match questions s1 with
      | [] => pendingSummary s1
      | _ :: _ => S (pendingSummary s1)
      end.
Proof.
  intros E. unfold handleEndGame. rewrite E.
  cbn [questions setPhase].
  destruct (questions s1) as [| q qs]; eexists; repeat split; reflexivity.
Qed.

(** X7.  From every state the component can be in, [handleEndGame] reaches
    its [await] (or returns, when there are no questions) without an
    exception, and at that point the phase is [ENDED], the connection flag is
    cleared and the registry is empty; every source that was registered is
    stopped, the output context referenced is closed and the tracks of the
    capture stream referenced are ended; [nextStartTime] and the transcript
    are what they were, and one more summary is awaited exactly when there
    are questions.  When the summary call answers, on whatever state the
    events in between have left, the continuation changes neither the phase,
    the connection flag, the registry, [nextStartTime], the transcript nor
    the streams and sessions: it only opens audio contexts and starts at
    most one source, at time 0. *)
Theorem handleEndGame_ends_and_releases (s : AppState) :
  reachable s ->
  (exists s',
     handleEndGame s = (s', Normal) /\
     phase s' = ENDED /\
     isConnected s' = false /\
     sourcesRef s' = [] /\
     (forall i, List.In i (sourcesRef s) -> stopped s' i = true) /\
     (forall c, audioContextRef s = Some c -> contextClosed s' c = true) /\
     (forall i, streamRef s = Some i -> streamStopped s' i = true) /\
     nextStartTimeRef s' = nextStartTimeRef s /\
     transcript s' = transcript s /\
     pendingSummary s'
     = match questions s with
       | [] => pendingSummary s
       | _ :: _ => S (pendingSummary s)
       end) /\
  (forall (response : option (option string)) (later : AppState),
     let s'' := handleEndGame_resume response later in
     phase s'' = phase later /\
     isConnected s'' = isConnected later /\
     sourcesRef s'' = sourcesRef later /\
     nextStartTimeRef s'' = nextStartTimeRef later /\
     transcript s'' = transcript later /\
     streams s'' = streams later /\
     sessions s'' = sessions later /\
     exists extraContexts extraNodes,
       contexts s'' = contexts later ++ extraContexts /\
       nodes s'' = nodes later ++ extraNodes /\
       (List.length extraNodes <= 1)%nat /\
       List.Forall (fun n => nodeStart n = Some 0%Q) extraNodes).
Proof.
  intros Hr. split.
  - destruct (reachable_refs_in_range s Hr) as (Hc & Hm).
    destruct (endSession_ok s (reachable_registryOk s Hr))
      as (ns' & E & L & _ & T).
    destruct (handleEndGame_after s _ E)
      as (s' & E' & A1 & A2 & A3 & A4 & A5 & A6 & A7 & A8 & A9).
    destruct (released_fields s)
      as (_ & _ & Rq & _ & _ & Rt & _ & _ & Rn & _).
    destruct (released_stores s) as (Rc & Rs & _).
    destruct (released_pending s) as (_ & Rp & _).
    cbn [isConnected sourcesRef nextStartTimeRef transcript streams contexts
         nodes questions pendingSummary setIsConnected setSourcesRef setNodes]
      in A2, A3, A4, A5, A6, A7, A8, A9.
    exists s'. split; [exact E' | ]. split; [exact A1 | ].
    split; [exact A2 | ]. split; [exact A3 | ].
    split; [ | split; [ | split; [ | split; [ | split]]]];
      [ | | | congruence | congruence | now rewrite A9, Rq, Rp].
    + intros i Hi. apply stopped_of_stoppedIn. rewrite A8. now apply T.
    + intros c Ec. pose proof (Hc c Ec) as Hlt.
      unfold contextClosed. rewrite A7, Rc, Ec.
      rewrite nth_error_update, Nat.eqb_refl.
      destruct (List.nth_error (contexts s) c) as [ctx | ] eqn:Ex.
      * reflexivity.
      * apply List.nth_error_None in Ex. lia.
    + intros i Ei. pose proof (Hm i Ei) as Hlt.
      unfold streamStopped. rewrite A6, Rs, Ei.
      rewrite nth_error_update, Nat.eqb_refl.
      destruct (List.nth_error (streams s) i) as [m | ] eqn:Em.
      * apply streamStopped_stopTracks.
      * apply List.nth_error_None in Em. lia.
  - intros response later s''. unfold s''.
    destruct (handleEndGame_resume_cases response later)
      as [(_ & ->) | (waiting & _ & [-> | [-> | (buffer & _ & ->)]])];
      cbn [phase isConnected sourcesRef nextStartTimeRef transcript streams
           sessions contexts nodes setPendingSummary setContexts setNodes];
      repeat (split; [reflexivity | ]).
    + exists [], []. rewrite !List.app_nil_r. repeat split; auto.
    + exists [], []. rewrite !List.app_nil_r. repeat split; auto.
    + exists [mkContext 24000 false], []. rewrite List.app_nil_r.
      repeat split; auto.
    + eexists. eexists. split; [reflexivity | ]. split; [reflexivity | ].
      split; [simpl; lia | ]. now constructor.
Qed.

(** *** Ending twice *)

Lemma stopTracks_idempotent (m : MediaStream) :
  stopTracks (stopTracks m) = stopTracks m.
Proof. destruct m as [ts]. unfold stopTracks. simpl. now rewrite List.map_map. Qed.

Lemma closeContext_idempotent (c : AudioContext) :
  closeContext (closeContext c) = closeContext c.
Proof. reflexivity. Qed.

Lemma closeSession_idempotent (k : LiveSession) :
  closeSession (closeSession k) = closeSession k.
Proof. reflexivity. Qed.

(** Two states with the same fields are the same state. *)
Lemma AppState_ext (s s' : AppState) :
  phase s = phase s' -> config s = config s' ->
  questions s = questions s' -> error s = error s' ->
  isConnected s = isConnected s' -> transcript s = transcript s' ->
  audioContextRef s = audioContextRef s' -> streamRef s = streamRef s' ->
  nextStartTimeRef s = nextStartTimeRef s' -> sourcesRef s = sourcesRef s' ->
  sessionRef s = sessionRef s' -> contexts s = contexts s' ->
  streams s = streams s' -> nodes s = nodes s' ->
  sessions s = sessions s' ->
  pendingMicrophone s = pendingMicrophone s' ->
  pendingSummary s = pendingSummary s' ->
  unhandledRejections s = unhandledRejections s' ->
  s = s'.
Proof.
  destruct s, s'. cbn. intros. subst. reflexivity.
Qed.

(** A state [s'] that holds the references of [s] and the stores as
    [released] left them, as the state a first [endSession] leaves does:
    releasing again leaves the stores as they are, and adds a rejection when
    an audio context is referenced. *)
Lemma released_again (s s' : AppState) :
  (forall c, audioContextRef s = Some c ->
             (c < List.length (contexts s))%nat) ->
  audioContextRef s' = audioContextRef s ->
  streamRef s' = streamRef s ->
  sessionRef s' = sessionRef s ->
  contexts s' = contexts (released s) ->
  streams s' = streams (released s) ->
  sessions s' = sessions (released s) ->
  contexts (released s') = contexts s' /\
  streams (released s') = streams s' /\
  sessions (released s') = sessions s' /\
  unhandledRejections (released s')
  = match audioContextRef s with
    | Some _ => unhandledRejections s' ++ ["InvalidStateError"]
    | None => unhandledRejections s'
    end.
Proof.
  intros Hlt A1 A2 A3 A4 A5 A6.
  destruct (released_stores s) as (G1 & G2 & G3).
  destruct (released_stores s') as (G1' & G2' & G3').
  destruct (released_pending s') as (_ & _ & P3').
  unfold contextClosed in P3'.
  rewrite G1', G2', G3', P3', A1, A2, A3, A4, A5, A6, G1, G2, G3.
  split; [ | split; [ | split]].
  - destruct (audioContextRef s); [ | reflexivity].
    apply (update_idempotent _ _ _ closeContext_idempotent).
  - destruct (streamRef s); [ | reflexivity].
    apply (update_idempotent _ _ _ stopTracks_idempotent).
  - destruct (sessionRef s); [ | reflexivity].
    apply (update_idempotent _ _ _ closeSession_idempotent).
  - destruct (audioContextRef s) as [c | ] eqn:Ha; [ | reflexivity].
    rewrite nth_error_update, Nat.eqb_refl.
    destruct (List.nth_error (contexts s) c) as [ctx | ] eqn:Hx;
      [reflexivity | ].
    apply List.nth_error_None in Hx. specialize (Hlt c eq_refl). lia.
Qed.

(** [endSession] on such a state, when its registry is empty and its
    connection flag cleared: the one thing that happens, when an audio
    context is referenced, is that [close()] is called on the closed
    context. *)
Lemma endSession_released (s s' : AppState) :
  (forall c, audioContextRef s = Some c ->
             (c < List.length (contexts s))%nat) ->
  audioContextRef s' = audioContextRef s ->
  streamRef s' = streamRef s ->
  sessionRef s' = sessionRef s ->
  contexts s' = contexts (released s) ->
  streams s' = streams (released s) ->
  sessions s' = sessions (released s) ->
  sourcesRef s' = [] ->
  isConnected s' = false ->
  endSession s'
  = (match audioContextRef s with
     | Some _ =>
         setUnhandledRejections
           (unhandledRejections s' ++ ["InvalidStateError"]) s'
     | None => s'
     end, Normal).
Proof.
  intros Hlt A1 A2 A3 A4 A5 A6 E1 E2.
  destruct (released_again s s' Hlt A1 A2 A3 A4 A5 A6) as (R1 & R2 & R3 & R4).
  destruct (released_fields s')
    as (F1 & F2 & F3 & F4 & F5 & F6 & F7 & F8 & F9 & F10 & F11 & F12).
  destruct (released_pending s') as (P1 & P2 & _).
  rewrite endSession_unfold, E1. cbn [stopAll]. f_equal.
  destruct (audioContextRef s);
    apply AppState_ext;
    cbn [phase config questions error isConnected transcript audioContextRef
         streamRef nextStartTimeRef sourcesRef sessionRef contexts streams
         nodes sessions pendingMicrophone pendingSummary unhandledRejections
         setIsConnected setSourcesRef setNodes setUnhandledRejections];
    congruence.
Qed.

Lemma endSession_again (s : AppState) (ns : list SourceNode) :
  (forall c, audioContextRef s = Some c ->
             (c < List.length (contexts s))%nat) ->
  endSession
    (setIsConnected false (setSourcesRef [] (setNodes ns (released s))))
  = (match audioContextRef s with
     | Some _ =>
         setUnhandledRejections
           (unhandledRejections (released s) ++ ["InvalidStateError"])
           (setIsConnected false (setSourcesRef [] (setNodes ns (released s))))
     | None =>
         setIsConnected false (setSourcesRef [] (setNodes ns (released s)))
     end, Normal).
Proof.
  intros Hlt.
  destruct (released_fields s)
    as (_ & _ & _ & _ & _ & _ & F7 & F8 & _ & _ & F11 & _).
  exact (endSession_released s
           (setIsConnected false (setSourcesRef [] (setNodes ns (released s))))
           Hlt F7 F8 F11 eq_refl eq_refl eq_refl eq_refl eq_refl).
Qed.

(** C9.  From every state the component can be in, [endSession] returns
    without an exception, and so does a second call on the state it left;
    before any session was opened (no stream, no audio context, no session,
    empty registry) it only clears the connection flag, and does nothing at
    all on the mount state.  But once an audio context is referenced, which
    is the case from the first "Connect" on, the second call is not a no-op:
    it calls [close()] on the context the first call closed, and the promise
    it gets, rejected with [InvalidStateError], is handled by nobody.
    Nothing else changes in the second call.  While no audio context is
    referenced the second call changes nothing. *)
Theorem endSession_twice_rejects_close :
  (forall s : AppState,
     reachable s ->
     exists s' s'',
       endSession s = (s', Normal) /\ endSession s' = (s'', Normal)) /\
  (forall s : AppState,
     streamRef s = None -> audioContextRef s = None -> sessionRef s = None ->
     sourcesRef s = [] ->
     endSession s = (setIsConnected false s, Normal)) /\
  endSession initial = (initial, Normal) /\
  (forall (s : AppState) (c : nat),
     reachable s ->
     audioContextRef s = Some c ->
     exists s',
       endSession s = (s', Normal) /\
       endSession s'
       = (setUnhandledRejections
            (unhandledRejections s' ++ ["InvalidStateError"]) s', Normal)) /\
  (forall s : AppState,
     reachable s ->
     audioContextRef s = None ->
     exists s', endSession s = (s', Normal) /\ endSession s' = (s', Normal)).
Proof.
  assert (forall (s : AppState) (c : nat),
            reachable s -> audioContextRef s = Some c ->
            exists s',
              endSession s = (s', Normal) /\
              endSession s'
              = (setUnhandledRejections
                   (unhandledRejections s' ++ ["InvalidStateError"]) s',
                 Normal)) as Hset.
  { intros s c Hr Ha.
    destruct (endSession_ok s (reachable_registryOk s Hr)) as (ns' & E & _).
    eexists. split; [exact E | ].
    pose proof (endSession_again s ns'
                  (proj1 (reachable_refs_in_range s Hr))) as H.
    now rewrite Ha in H. }
  assert (forall s : AppState,
            reachable s -> audioContextRef s = None ->
            exists s', endSession s = (s', Normal) /\
                       endSession s' = (s', Normal)) as Hunset.
  { intros s Hr Ha.
    destruct (endSession_ok s (reachable_registryOk s Hr)) as (ns' & E & _).
    eexists. split; [exact E | ].
    pose proof (endSession_again s ns'
                  (proj1 (reachable_refs_in_range s Hr))) as H.
    now rewrite Ha in H. }
  split; [ | split; [ | split; [reflexivity | split; assumption]]].
  - intros s Hr. destruct (audioContextRef s) as [c | ] eqn:Ha.
    + destruct (Hset s c Hr Ha) as (s' & E1 & E2). eauto.
    + destruct (Hunset s Hr Ha) as (s' & E1 & E2). eauto.
  - intros s H1 H2 H3 H4.
    destruct s as [ph cf qs er ic tr acr sr nst srcs ss cx st nd se pm ps ur].
    simpl in *. subst. reflexivity.
Qed.

(** *** Fragments that follow one another *)

(** X1.  Two decodable fragments handled one after the other, neither with
    an interruption: the second source starts at the later of the end of the
    first and the clock reading of its own arrival; so it never starts
    before the first has ended, never before its arrival, and exactly at the
    end of the first when it arrives before that. *)
Theorem consecutive_fragments_are_contiguous (s : AppState)
    (ctx1 ctx2 : nat) (m1 m2 : Live.LiveServerMessage) (p1 p2 : string)
    (b1 b2 : AudioBuffer) (now1 now2 : Q) :
  Live.truthy (Live.firstInlineData m1) = Some p1 ->
  Live.truthy (Live.firstInlineData m2) = Some p2 ->
  decodePayload ctx1 p1 = Some b1 ->
  decodePayload ctx2 p2 = Some b2 ->
  Live.isInterrupted m1 = false ->
  Live.isInterrupted m2 = false ->
  exists s1 s2 t1 t2,
    onmessage ctx1 m1 now1 s = (s1, Normal) /\
    onmessage ctx2 m2 now2 s1 = (s2, Normal) /\
    startAt s2 (List.length (nodes s)) = Some t1 /\
    startAt s2 (S (List.length (nodes s))) = Some t2 /\
    (t2 == Qmax (t1 + duration b1) now2)%Q /\
    (t1 + duration b1 <= t2)%Q /\
    (now2 <= t2)%Q /\
    ((now2 <= t1 + duration b1)%Q -> (t2 == t1 + duration b1)%Q).
Proof.
  intros T1 T2 D1 D2 I1 I2.
  destruct (onmessage_enqueue s ctx1 m1 p1 b1 now1 T1 D1 I1)
    as (s1 & E1 & N1 & _ & C1).
  destruct (onmessage_enqueue s1 ctx2 m2 p2 b2 now2 T2 D2 I2)
    as (s2 & E2 & N2 & _ & _).
  exists s1, s2, (Qmax (nextStartTimeRef s) now1),
    (Qmax (Qmax (nextStartTimeRef s) now1 + duration b1) now2).
  split; [exact E1 | ]. split; [exact E2 | ].
  split; [ | split; [ | split; [reflexivity | split; [ | split]]]].
  - unfold startAt. rewrite N2, N1, <- List.app_assoc.
    rewrite List.nth_error_app2, Nat.sub_diag by lia. reflexivity.
  - replace (S (List.length (nodes s))) with (List.length (nodes s1))
      by (rewrite N1, List.length_app; simpl; lia).
    rewrite (startAt_last s2 _ _ N2). cbn [nodeStart]. now rewrite C1.
  - apply Q.le_max_l.
  - apply Q.le_max_r.
  - intros H. now apply Q.max_l.
Qed.

(** *** A fragment and an interruption in one message *)

Lemma stopAll_started_starts (ids : list nat) (ns : list SourceNode) :
  (forall i, List.In i ids -> started ns i) ->
  exists ns',
    stopAll ids ns = (ns', Normal) /\
    List.map nodeStart ns' = List.map nodeStart ns /\
    (forall i, List.In i ids -> stoppedIn ns' i).
Proof.
  intros H. destruct (stopAll_started ids ns H) as (ns' & E & _ & _ & _ & T).
  exists ns'. split; [exact E | ]. split; [ | exact T].
  pose proof (proj1 (stopAll_nodeStart ids ns)) as A.
  now rewrite E in A.
Qed.

(** X10.  A message that carries both a decodable fragment and the
    interruption flag: the source is created and started at
    [max(nextStartTime, now)] like any other, and stopped at once together
    with the sources already registered; the registry is left empty and
    [nextStartTime] is 0. *)
Theorem fragment_with_interruption_is_stopped_at_once (s : AppState)
    (outputCtx : nat) (message : Live.LiveServerMessage)
    (base64Audio : string) (b : AudioBuffer) (now : Q) :
  registryStarted s = true ->
  Live.truthy (Live.firstInlineData message) = Some base64Audio ->
  decodePayload outputCtx base64Audio = Some b ->
  Live.isInterrupted message = true ->
  exists s',
    onmessage outputCtx message now s = (s', Normal) /\
    sourcesRef s' = [] /\
    nextStartTimeRef s' = 0%Q /\
    startAt s' (List.length (nodes s))
    = Some (Qmax (nextStartTimeRef s) now) /\
    stopped s' (List.length (nodes s)) = true /\
    (forall i, List.In i (sourcesRef s) -> stopped s' i = true).
Proof.
  intros Hs Hp Hb Hi. apply registryStarted_ok in Hs.
  assert (registryOk (onmessage_transcript message s) /\
          nodes (onmessage_transcript message s) = nodes s /\
          sourcesRef (onmessage_transcript message s) = sourcesRef s /\
          nextStartTimeRef (onmessage_transcript message s)
          = nextStartTimeRef s) as (Hs1 & Tn & Tr & Tt).
  { unfold onmessage_transcript.
    destruct (Live.truthy (Live.firstText message)); repeat split; exact Hs. }
  pose proof (onmessage_audio_registryOk outputCtx base64Audio now _ Hs1)
    as Hs2.
  unfold onmessage. rewrite Hp, Hi.
  rewrite (onmessage_audio_decoded _ _ now _ b Hb) in *.
  cbn [fst] in Hs2.
  match type of Hs2 with registryOk ?st => set (s2 := st) in * end.
  assert (nodes s2
          = nodes s ++ [mkNode outputCtx b
                          (Some (Qmax (nextStartTimeRef s) now)) false]) as N2.
  { unfold s2. cbn [nodes setSourcesRef setNextStartTimeRef setNodes].
    now rewrite Tn, Tt. }
  assert (forall i, List.In i (sourcesRef s) \/ i = List.length (nodes s) ->
                    List.In i (sourcesRef s2)) as R2.
  { intros i Hi2. unfold s2.
    cbn [sourcesRef nodes setSourcesRef setNextStartTimeRef setNodes].
    rewrite Tn, Tr. apply setAdd_In. tauto. }
  unfold onmessage_interrupted.
  destruct (stopAll_started_starts (sourcesRef s2) (nodes s2) Hs2)
    as (ns' & E & A & T).
  rewrite E. eexists. split; [reflexivity | ].
  split; [reflexivity | ]. split; [reflexivity | ].
  split; [ | split].
  - unfold startAt. cbn [nodes setNextStartTimeRef setSourcesRef setNodes].
    pose proof (List.nth_error_map nodeStart (List.length (nodes s)) ns')
      as M1.
    rewrite A, List.nth_error_map, N2 in M1.
    rewrite List.nth_error_app2, Nat.sub_diag in M1 by lia.
    cbn in M1. destruct (List.nth_error ns' (List.length (nodes s)));
      cbn in M1; congruence.
  - apply stopped_of_stoppedIn.
    cbn [nodes setNextStartTimeRef setSourcesRef setNodes].
    apply T, R2. now right.
  - intros i Hi2. apply stopped_of_stoppedIn.
    cbn [nodes setNextStartTimeRef setSourcesRef setNodes].
    apply T, R2. now left.
Qed.

(** *** Connecting without questions *)


End Lifecycle.

(** *** The invariants and the handlers on concrete sessions *)

Lemma threePlaying_reachable :
  reachable (audioUtils := specAudioUtils) Scenario.threePlaying.
Proof. exists Sessions.threePlayingEvents. reflexivity. Defined.

Lemma secondSession_reachable :
  reachable (audioUtils := Scenario.toneAudioUtils) Scenario.secondSession.
Proof. exists Sessions.secondSessionEvents. reflexivity. Defined.

Lemma consecutive_fragments_are_contiguous_witness :
  exists s1 s2 t1 t2,
    onmessage (audioUtils := specAudioUtils) 1
      (Scenario.audioMessage "AAAAAAAA") 0%Q Scenario.connected
    = (s1, Normal) /\
    onmessage (audioUtils := specAudioUtils) 1
      (Scenario.audioMessage "AAAAAAAA") (1 # 2)%Q s1 = (s2, Normal) /\
    startAt s2 (List.length (nodes Scenario.connected)) = Some t1 /\
    startAt s2 (S (List.length (nodes Scenario.connected))) = Some t2 /\
    (t2 == Qmax (t1 + duration (mkAudioBuffer 24000 1
                                  [0 # 32768; 0 # 32768; 0 # 32768]))
                (1 # 2))%Q /\
    (t1 + duration (mkAudioBuffer 24000 1 [0 # 32768; 0 # 32768; 0 # 32768])
     <= t2)%Q /\
    (1 # 2 <= t2)%Q /\
    ((1 # 2 <= t1 + duration (mkAudioBuffer 24000 1
                                [0 # 32768; 0 # 32768; 0 # 32768]))%Q ->
     (t2 == t1 + duration (mkAudioBuffer 24000 1
                             [0 # 32768; 0 # 32768; 0 # 32768]))%Q).
Proof.
  apply (consecutive_fragments_are_contiguous (audioUtils := specAudioUtils)
           Scenario.connected 1%nat 1%nat
           (Scenario.audioMessage "AAAAAAAA")
           (Scenario.audioMessage "AAAAAAAA")
           "AAAAAAAA" "AAAAAAAA"
           (mkAudioBuffer 24000 1 [0 # 32768; 0 # 32768; 0 # 32768])
           (mkAudioBuffer 24000 1 [0 # 32768; 0 # 32768; 0 # 32768]));
    reflexivity.
Defined.

Lemma registered_sources_never_overlap_witness :
  noOverlap Scenario.threePlaying.
Proof.
  exact (registered_sources_never_overlap (audioUtils := specAudioUtils)
           Scenario.threePlaying threePlaying_reachable).
Defined.

Lemma start_times_never_negative_witness :
  timesNonneg Scenario.threePlaying.
Proof.
  exact (start_times_never_negative (audioUtils := specAudioUtils)
           Scenario.threePlaying threePlaying_reachable).
Defined.

Lemma registry_sources_are_playing_witness :
  registryLive Scenario.threePlaying.
Proof.
  exact (registry_sources_are_playing (audioUtils := specAudioUtils)
           Scenario.threePlaying threePlaying_reachable).
Defined.

Lemma live_sessions_are_never_closed_witness :
  sessionsOpen Scenario.secondSession.
Proof.
  exact (live_sessions_are_never_closed
           (audioUtils := Scenario.toneAudioUtils)
           Scenario.secondSession secondSession_reachable).
Defined.

Lemma capture_contexts_are_never_closed_witness :
  refsValid Scenario.secondSession.
Proof.
  exact (capture_contexts_are_never_closed
           (audioUtils := Scenario.toneAudioUtils)
           Scenario.secondSession secondSession_reachable).
Defined.


Lemma handleEndGame_ends_and_releases_witness :
  exists s',
    handleEndGame Scenario.threePlaying = (s', Normal) /\
    phase s' = ENDED /\
    isConnected s' = false /\
    sourcesRef s' = [] /\
    (forall i, List.In i (sourcesRef Scenario.threePlaying) ->
               stopped s' i = true) /\
    (forall c, audioContextRef Scenario.threePlaying = Some c ->
               contextClosed s' c = true) /\
    (forall i, streamRef Scenario.threePlaying = Some i ->
               streamStopped s' i = true) /\
    nextStartTimeRef s' = nextStartTimeRef Scenario.threePlaying /\
    transcript s' = transcript Scenario.threePlaying /\
    pendingSummary s' = 1%nat.
Proof.
  exact (proj1 (handleEndGame_ends_and_releases (audioUtils := specAudioUtils)
                  Scenario.threePlaying threePlaying_reachable)).
Defined.

(** A connected session is ended, and ended again (as when the component
    unmounts after "End Session"): the second call completes, and leaves one
    unhandled [InvalidStateError]. *)
Lemma endSession_twice_rejects_close_witness :
  (exists s',
     endSession Scenario.connected = (s', Normal) /\
     endSession s'
     = (setUnhandledRejections
          (unhandledRejections s' ++ ["InvalidStateError"]) s', Normal)) /\
  unhandledRejections (fst (endSession Scenario.connected)) = [] /\
  unhandledRejections
    (fst (endSession (fst (endSession Scenario.connected))))
  = ["InvalidStateError"].
Proof.
  split; [ | split; reflexivity].
  apply (proj1 (proj2 (proj2 (proj2
           (endSession_twice_rejects_close (audioUtils := specAudioUtils)))))
           Scenario.connected 1%nat).
  - exists [EvHandleStart Scenario.catsConfig (Some [Scenario.catsQuestion]);
            EvStartLiveSession; EvMicrophone MicGranted; EvOpen].
    reflexivity.
  - reflexivity.
Defined.

Lemma fragment_with_interruption_is_stopped_at_once_witness :
  exists s',
    onmessage (audioUtils := specAudioUtils) 1
      (Sessions.audioInterruptedMessage "AAAAAAAA") (1 # 2)%Q
      Scenario.threePlaying = (s', Normal) /\
    sourcesRef s' = [] /\
    nextStartTimeRef s' = 0%Q /\
    startAt s' (List.length (nodes Scenario.threePlaying))
    = Some (Qmax (nextStartTimeRef Scenario.threePlaying) (1 # 2)) /\
    stopped s' (List.length (nodes Scenario.threePlaying)) = true /\
    (forall i, List.In i (sourcesRef Scenario.threePlaying) ->
               stopped s' i = true).
Proof.
  apply (fragment_with_interruption_is_stopped_at_once
           (audioUtils := specAudioUtils) Scenario.threePlaying 1%nat
           (Sessions.audioInterruptedMessage "AAAAAAAA") "AAAAAAAA"
           (mkAudioBuffer 24000 1 [0 # 32768; 0 # 32768; 0 # 32768]));
    reflexivity.
Defined.


(** *** Sources that end *)

Lemma setDelete_spec (n i : nat) (l : list nat) :
  List.In i (setDelete n l) <-> List.In i l /\ i <> n.
Proof.
  unfold setDelete. rewrite List.filter_In, negb_true_iff, Nat.eqb_neq.
  reflexivity.
Qed.

Lemma setDelete_length (n : nat) (l : list nat) :
  List.NoDup l -> List.In n l ->
  S (List.length (setDelete n l)) = List.length l.
Proof.
  unfold setDelete. induction 1 as [| x l Hx Hl IH]; intros Hin; [destruct Hin | ].
  simpl. destruct (Nat.eqb_spec x n) as [-> | Hne]; simpl.
  - f_equal. clear IH Hin Hl.
    induction l as [| y l IH]; [reflexivity | ].
    simpl. destruct (Nat.eqb_spec y n) as [-> | _]; simpl.
    + exfalso. apply Hx. now left.
    + f_equal. apply IH. intros H. apply Hx. now right.
  - f_equal. apply IH. destruct Hin as [-> | Hin]; [contradiction | exact Hin].
Qed.

Section Ending.

Context {audioUtils : AudioUtils}.

(** X15.  In every state the component can be in, when a registered source
    ends it leaves the registry, every other source stays registered, and
    the registry has exactly one source fewer; no source is touched. *)
Theorem ended_source_leaves_registry (s : AppState) (sourceNode : nat) :
  reachable s ->
  List.In sourceNode (sourcesRef s) ->
  let s' := onended sourceNode s in
  ~ List.In sourceNode (sourcesRef s') /\
  (forall i, i <> sourceNode ->
     (List.In i (sourcesRef s') <-> List.In i (sourcesRef s))) /\
  S (List.length (sourcesRef s')) = List.length (sourcesRef s) /\
  nodes s' = nodes s /\ nextStartTimeRef s' = nextStartTimeRef s.
Proof.
  intros Hr Hin s'.
  pose proof (reachable_NoDup s Hr) as Hd.
  unfold s'. cbn [sourcesRef nodes nextStartTimeRef onended setSourcesRef].
  split; [ | split; [ | split; [ | split; reflexivity]]].
  - intros H. apply setDelete_spec in H. now destruct H.
  - intros i Hi. rewrite setDelete_spec. tauto.
  - now apply setDelete_length.
Qed.

(** X16.  After an interruption was handled, or after [endSession], the
    [onended] callback of whichever source fires late changes nothing. *)
Theorem late_ended_callbacks_change_nothing (s : AppState)
    (sourceNode : nat) :
  registryStarted s = true ->
  onended sourceNode (fst (onmessage_interrupted s))
  = fst (onmessage_interrupted s) /\
  onended sourceNode (fst (endSession s)) = fst (endSession s).
Proof.
  intros Hs. apply registryStarted_ok in Hs. split.
  - destruct (onmessage_interrupted_ok s Hs) as (ns' & -> & _). reflexivity.
  - destruct (endSession_ok s Hs) as (ns' & -> & _). reflexivity.
Qed.

End Ending.

Lemma ended_source_leaves_registry_witness :
  ~ List.In 1%nat (sourcesRef (onended 1 Scenario.threePlaying)) /\
  (forall i, i <> 1%nat ->
     (List.In i (sourcesRef (onended 1 Scenario.threePlaying))
      <-> List.In i (sourcesRef Scenario.threePlaying))) /\
  S (List.length (sourcesRef (onended 1 Scenario.threePlaying)))
  = List.length (sourcesRef Scenario.threePlaying) /\
  nodes (onended 1 Scenario.threePlaying) = nodes Scenario.threePlaying /\
  nextStartTimeRef (onended 1 Scenario.threePlaying)
  = nextStartTimeRef Scenario.threePlaying.
Proof.
  apply (ended_source_leaves_registry (audioUtils := specAudioUtils)
           Scenario.threePlaying 1%nat threePlaying_reachable).
  right. left. reflexivity.
Defined.

Lemma late_ended_callbacks_change_nothing_witness :
  onended 2 (fst (onmessage_interrupted Scenario.threePlaying))
  = fst (onmessage_interrupted Scenario.threePlaying) /\
  onended 2 (fst (endSession Scenario.threePlaying))
  = fst (endSession Scenario.threePlaying).
Proof.
  apply (late_ended_callbacks_change_nothing Scenario.threePlaying 2%nat).
  reflexivity.
Defined.

End AppInvariants.

(** ** The fenced block of a response *)

Module FenceFacts.

Import Json GeminiService Fence.

Local Open Scope string_scope.

(** *** Strings *)

Lemma append_assoc (a b c : string) : (a ++ b) ++ c = a ++ (b ++ c).
Proof. induction a as [| x a IH]; simpl; [reflexivity | now rewrite IH]. Qed.

Lemma append_empty_r (a : string) : a ++ EmptyString = a.
Proof. induction a as [| x a IH]; simpl; [reflexivity | now rewrite IH]. Qed.

Lemma substring_all (r : string) : substring 0 (String.length r) r = r.
Proof. induction r as [| c r IH]; simpl; [reflexivity | now rewrite IH]. Qed.

Lemma startsWith_append (p r : string) : startsWith p (p ++ r) = Some r.
Proof.
  unfold startsWith.
  assert (prefix p (p ++ r) = true) as ->.
  { induction p as [| c p IH]; [now destruct r | ].
    change (prefix (String c p) (String c p ++ r))
      with (if ascii_dec c c then prefix p (p ++ r) else false).
    destruct (ascii_dec c c); [exact IH | contradiction]. }
  f_equal. induction p as [| c p IH]; simpl.
  - rewrite Nat.sub_0_r. apply substring_all.
  - exact IH.
Qed.

(** A pattern that begins with a backtick matches no text that begins
    otherwise. *)
Lemma startsWith_backtick (p s : string) :
  match s with
  | EmptyString => True
  | String c _ => isBacktick c = false
  end ->
  startsWith (String "`" p) s = None.
Proof.
  unfold startsWith. destruct s as [| c s]; [reflexivity | ].
  intros H. apply Ascii.eqb_neq in H.
  change (prefix (String "`" p) (String c s))
    with (if ascii_dec "`" c then prefix p s else false).
  destruct (ascii_dec "`" c) as [E | _]; [ | reflexivity].
  now subst c.
Qed.

Lemma backtick_not_space : isSpace "`" = false.
Proof. reflexivity. Qed.

(** *** The combinators on the pieces of a text *)

Section Pieces.

Variable R : Type.

(** The search skips a stretch without backticks. *)
Lemma search_skips (p : string) (k : string -> option R) (pre rest : string) :
  noBacktick pre = true ->
  (match rest with
   | EmptyString => True
   | String c _ => isBacktick c = true
   end) ->
  lit R (String "`" p) k rest <> None ->
  search R (lit R (String "`" p) k) (pre ++ rest)
  = lit R (String "`" p) k rest.
Proof.
  intros Hpre Hrest Hk. induction pre as [| c pre IH]; simpl.
  - destruct rest as [| c rest]; cbn [search];
      destruct (lit R (String "`" p) k _) eqn:E; congruence.
  - simpl in Hpre. apply andb_prop in Hpre. destruct Hpre as [Hc Hpre].
    apply negb_true_iff in Hc.
    unfold lit at 1. rewrite (startsWith_backtick p (String c (pre ++ rest)) Hc).
    now apply IH.
Qed.

(** White space is consumed as far as it goes. *)
Lemma greedyStar_spaces (k : string -> option R) (ws s : string) (r : R) :
  allSpace ws = true ->
  (match s with
   | EmptyString => True
   | String c _ => isSpace c = false
   end) ->
  k s = Some r ->
  greedyStar R isSpace k (ws ++ s) = Some r.
Proof.
  intros Hws Hs Hk. induction ws as [| c ws IH]; simpl.
  - destruct s as [| c s]; simpl; [exact Hk | ]. now rewrite Hs.
  - simpl in Hws. apply andb_prop in Hws. destruct Hws as [Hc Hws].
    rewrite Hc, (IH Hws). reflexivity.
Qed.

(** Inside a body no closing fence is found. *)
Lemma greedyStar_inside (k : string -> option R) (p u tail : string) :
  noBacktick u = true -> lastNonSpace u = true ->
  greedyStar R isSpace (lit R (String "`" p) k) (u ++ tail) = None.
Proof.
  induction u as [| c u IH]; intros Hb Hl; [discriminate Hl | ].
  simpl in Hb. apply andb_prop in Hb. destruct Hb as [Hc Hb].
  apply negb_true_iff in Hc.
  assert (lit R (String "`" p) k (String c (u ++ tail)) = None) as Hlit.
  { unfold lit. now rewrite (startsWith_backtick p (String c (u ++ tail)) Hc). }
  simpl. destruct (isSpace c) eqn:Es; [ | exact Hlit].
  destruct u as [| d u].
  - simpl in Hl. rewrite Es in Hl. discriminate Hl.
  - rewrite (IH Hb Hl). exact Hlit.
Qed.

Lemma lazyStar_unfold (cls : ascii -> bool)
    (k : string -> string -> option R) (matched s : string) :
  lazyStar R cls k matched s
  = match k matched s with
    | Some r => Some r
    | None =>
        match s with
        | String c rest =>
            if cls c then lazyStar R cls k (matched ++ String c EmptyString) rest
            else None
        | EmptyString => None
        end
    end.
Proof. destruct s; reflexivity. Qed.

End Pieces.

(** The lazy group takes the body and stops at the closing fence. *)
Lemma lazyStar_body (u matched ws2 post : string) :
  noBacktick u = true ->
  (u = EmptyString \/ lastNonSpace u = true) ->
  allSpace ws2 = true ->
  lazyStar string anyChar
    (fun captured =>
       greedyStar string isSpace (lit string "```" (fun _ => Some captured)))
    matched (u ++ ws2 ++ "```" ++ post)
  = Some (matched ++ u).
Proof.
  revert matched. induction u as [| c u IH]; intros matched Hb Hl Hws.
  - rewrite append_empty_r. cbn [append]. rewrite lazyStar_unfold.
    rewrite (greedyStar_spaces string _ ws2 ("```" ++ post) matched Hws);
      [reflexivity | reflexivity | ].
    unfold lit. now rewrite startsWith_append.
  - destruct Hl as [Hl | Hl]; [discriminate Hl | ].
    rewrite lazyStar_unfold.
    rewrite (greedyStar_inside string _ "``" (String c u) _ Hb Hl).
    cbn [append anyChar].
    simpl in Hb. apply andb_prop in Hb. destruct Hb as [_ Hb].
    rewrite IH; [ | exact Hb | | exact Hws].
    + now rewrite append_assoc.
    + destruct u as [| d u]; [now left | right; exact Hl].
Qed.

(** The match on a text with a fenced block: the capture is the body. *)
Lemma matchJsonFence_fenced (pre ws1 body ws2 post : string) :
  noBacktick pre = true ->
  allSpace ws1 = true -> allSpace ws2 = true ->
  trimmedBody body = true ->
  matchJsonFence
    (pre ++ "```json" ++ ws1 ++ body ++ ws2 ++ "```" ++ post)
  = Some body.
Proof.
  intros Hpre Hw1 Hw2 Hbody. unfold trimmedBody in Hbody.
  apply andb_prop in Hbody. destruct Hbody as [Hbody Hlast].
  apply andb_prop in Hbody. destruct Hbody as [Hnb Hfirst].
  assert (greedyStar string isSpace
            (lazyStar string anyChar
               (fun captured =>
                  greedyStar string isSpace
                    (lit string "```" (fun _ => Some captured)))
               EmptyString)
            (ws1 ++ body ++ ws2 ++ "```" ++ post) = Some body) as E.
  { apply greedyStar_spaces; [exact Hw1 | | ].
    - destruct body as [| c body]; [discriminate Hfirst | ].
      cbn [append]. simpl in Hfirst. now apply negb_true_iff in Hfirst.
    - rewrite (lazyStar_body body EmptyString ws2 post Hnb (or_intror Hlast)
                 Hw2).
      reflexivity. }
  assert (lit string "```json"
            (greedyStar string isSpace
               (lazyStar string anyChar
                  (fun captured =>
                     greedyStar string isSpace
                       (lit string "```" (fun _ => Some captured)))
                  EmptyString))
            ("```json" ++ ws1 ++ body ++ ws2 ++ "```" ++ post) = Some body)
    as E'.
  { unfold lit. rewrite startsWith_append. exact E. }
  unfold matchJsonFence.
  rewrite (search_skips string "``json" _ pre _ Hpre); [exact E' | | ].
  - reflexivity.
  - rewrite E'. discriminate.
Qed.

(** The match on a text whose fence holds white space only: the capture
    is empty. *)
Lemma matchJsonFence_blank (pre ws post : string) :
  noBacktick pre = true -> allSpace ws = true ->
  matchJsonFence (pre ++ "```json" ++ ws ++ "```" ++ post)
  = Some EmptyString.
Proof.
  intros Hpre Hws.
  assert (lit string "```json"
            (greedyStar string isSpace
               (lazyStar string anyChar
                  (fun captured =>
                     greedyStar string isSpace
                       (lit string "```" (fun _ => Some captured)))
                  EmptyString))
            ("```json" ++ ws ++ "```" ++ post) = Some EmptyString) as E.
  { unfold lit. rewrite startsWith_append.
    apply greedyStar_spaces; [exact Hws | reflexivity | ].
    exact (lazyStar_body EmptyString EmptyString EmptyString post eq_refl
             (or_introl eq_refl) eq_refl). }
  unfold matchJsonFence.
  rewrite (search_skips string "``json" _ pre _ Hpre); [exact E | | ].
  - reflexivity.
  - rewrite E. discriminate.
Qed.

(** The match on a text without a backtick: none. *)
Lemma matchJsonFence_plain (text : string) :
  noBacktick text = true -> matchJsonFence text = None.
Proof.
  intros H. unfold matchJsonFence.
  induction text as [| c text IH].
  - reflexivity.
  - simpl in H. apply andb_prop in H. destruct H as [Hc H].
    apply negb_true_iff in Hc.
    cbn [search]. unfold lit at 1.
    rewrite (startsWith_backtick "``json" (String c text) Hc).
    exact (IH H).
Qed.

(** *** The text handed to [JSON.parse] *)

Lemma jsonSource_fenced (pre ws1 body ws2 post : string) :
  noBacktick pre = true ->
  allSpace ws1 = true -> allSpace ws2 = true ->
  trimmedBody body = true ->
  jsonSource (pre ++ "```json" ++ ws1 ++ body ++ ws2 ++ "```" ++ post) = body.
Proof.
  intros Hpre Hw1 Hw2 Hbody. unfold jsonSource.
  rewrite (matchJsonFence_fenced pre ws1 body ws2 post Hpre Hw1 Hw2 Hbody).
  destruct body as [| c body]; [discriminate Hbody | reflexivity].
Qed.

Lemma jsonSource_blank (pre ws post : string) :
  noBacktick pre = true -> allSpace ws = true ->
  jsonSource (pre ++ "```json" ++ ws ++ "```" ++ post)
  = pre ++ "```json" ++ ws ++ "```" ++ post.
Proof.
  intros Hpre Hws. unfold jsonSource.
  now rewrite (matchJsonFence_blank pre ws post Hpre Hws).
Qed.

Lemma jsonSource_plain (plain : string) :
  noBacktick plain = true -> jsonSource plain = plain.
Proof.
  intros H. unfold jsonSource. now rewrite (matchJsonFence_plain plain H).
Qed.

Section WithRuntime.

Context {runtime : JsonRuntime}.

(** X11.  A response text made of a stretch without backticks, the opening
    fence, white space, a body (not empty, without backticks, without white
    space at its ends), white space, the closing fence and anything after
    it: the questions are what [JSON.parse] makes of the body alone, or the
    fallback question when it throws; the grounding chunks are passed on. *)
Theorem generateQuestions_parses_fenced_body (topic : string)
    (pre ws1 body ws2 post : string) (chunks : option (list JSON)) :
  noBacktick pre = true ->
  allSpace ws1 = true -> allSpace ws2 = true ->
  trimmedBody body = true ->
  generateQuestions topic
    (Some (mkResponse
             (Some (pre ++ "```json" ++ ws1 ++ body ++ ws2 ++ "```" ++ post))
             chunks))
  = Some (mkGenerated
            match JSON_parse body with
            | Some parsed => parsed
            | None => JArray [fallbackQuestion topic]
            end
            match chunks with
            | Some found => found
            | None => []
            end).
Proof.
  intros Hpre Hw1 Hw2 Hbody.
  unfold generateQuestions, responseText, jsonSource. cbn [text groundingChunks].
  rewrite (matchJsonFence_fenced pre ws1 body ws2 post Hpre Hw1 Hw2 Hbody).
  destruct body as [| c body]; [discriminate Hbody | reflexivity].
Qed.

(** X12.  A response text without any backtick is handed to [JSON.parse]
    whole: the questions are what it makes of the text, or the fallback
    question when it throws. *)
Theorem generateQuestions_parses_plain_text (topic plain : string)
    (chunks : option (list JSON)) :
  noBacktick plain = true ->
  generateQuestions topic (Some (mkResponse (Some plain) chunks))
  = Some (mkGenerated
            match JSON_parse plain with
            | Some parsed => parsed
            | None => JArray [fallbackQuestion topic]
            end
            match chunks with
            | Some found => found
            | None => []
            end).
Proof.
  intros H.
  unfold generateQuestions, responseText, jsonSource. cbn [text groundingChunks].
  now rewrite (matchJsonFence_plain plain H).
Qed.

(** X13.  A response text whose fenced block holds nothing but white
    space: the empty capture is not parsed; the whole text, fences included,
    is handed to [JSON.parse]. *)
Theorem generateQuestions_ignores_blank_fence (topic : string)
    (pre ws post : string) (chunks : option (list JSON)) :
  noBacktick pre = true -> allSpace ws = true ->
  generateQuestions topic
    (Some (mkResponse (Some (pre ++ "```json" ++ ws ++ "```" ++ post)) chunks))
  = Some (mkGenerated
            match JSON_parse (pre ++ "```json" ++ ws ++ "```" ++ post) with
            | Some parsed => parsed
            | None => JArray [fallbackQuestion topic]
            end
            match chunks with
            | Some found => found
            | None => []
            end).
Proof.
  intros Hpre Hws.
  unfold generateQuestions, responseText, jsonSource. cbn [text groundingChunks].
  now rewrite (matchJsonFence_blank pre ws post Hpre Hws).
Qed.

End WithRuntime.

(** *** The theorems on concrete responses *)

Lemma generateQuestions_parses_fenced_body_witness :
  generateQuestions (runtime := referenceRuntime) "cats"
    (Some (mkResponse
             (Some ("Here you go: " ++ "```json" ++ " " ++ "[true]" ++ " "
                    ++ "```" ++ " Enjoy ```json [] ```"))
             None))
  = Some (mkGenerated
            match JSON_parse (JsonRuntime := referenceRuntime) "[true]" with
            | Some parsed => parsed
            | None => JArray [fallbackQuestion "cats"]
            end
            []).
Proof.
  apply (generateQuestions_parses_fenced_body (runtime := referenceRuntime)
           "cats" "Here you go: " " " "[true]" " " " Enjoy ```json [] ```"
           None);
    reflexivity.
Defined.

Lemma generateQuestions_parses_plain_text_witness :
  generateQuestions (runtime := referenceRuntime) "cats"
    (Some (mkResponse (Some "[null, 1]") None))
  = Some (mkGenerated
            match JSON_parse (JsonRuntime := referenceRuntime) "[null, 1]" with
            | Some parsed => parsed
            | None => JArray [fallbackQuestion "cats"]
            end
            []).
Proof.
  apply (generateQuestions_parses_plain_text (runtime := referenceRuntime)
           "cats" "[null, 1]" None).
  reflexivity.
Defined.

Lemma generateQuestions_ignores_blank_fence_witness :
  generateQuestions (runtime := referenceRuntime) "cats"
    (Some (mkResponse (Some ("Nothing: " ++ "```json" ++ "  " ++ "```" ++ "."))
             None))
  = Some (mkGenerated
            match JSON_parse (JsonRuntime := referenceRuntime)
                    ("Nothing: " ++ "```json" ++ "  " ++ "```" ++ ".") with
            | Some parsed => parsed
            | None => JArray [fallbackQuestion "cats"]
            end
            []).
Proof.
  apply (generateQuestions_ignores_blank_fence (runtime := referenceRuntime)
           "cats" "Nothing: " "  " "." None);
    reflexivity.
Defined.

End FenceFacts.

(** ** The question generator *)

Module GeminiFacts.

Import Json GeminiService Fence FenceFacts.

Local Open Scope string_scope.

Section WithRuntime.

Context {runtime : JsonRuntime}.

(** C10 (as amended).  Whenever the model call succeeds, [generateQuestions]
    resolves, and the fallback question is returned exactly when [JSON.parse]
    throws on the text it is handed.  That text is the body of the fenced
    json block, trimmed of the white space around it, when the response text
    is a stretch without backticks, the opening fence, a body that is not
    blank and has no backtick, and the closing fence; it is the whole
    response text when the fenced block holds nothing but white space, and
    when the response text has no backtick at all.  When the text does not
    parse, the questions are the single fallback question; when it parses,
    the questions are the parsed value as it is, whatever it is. *)
Theorem generateQuestions_fallback_on_parse_error (topic : string)
    (response : GenerateContentResponse) :
  (forall pre ws1 body ws2 post : string,
     noBacktick pre = true ->
     allSpace ws1 = true -> allSpace ws2 = true ->
     trimmedBody body = true ->
     responseText response
     = pre ++ "```json" ++ ws1 ++ body ++ ws2 ++ "```" ++ post ->
     jsonSource (responseText response) = body /\
     generateQuestions topic (Some response)
     = Some (mkGenerated
               match JSON_parse body with
               | Some parsed => parsed
               | None => JArray [fallbackQuestion topic]
               end
               match groundingChunks response with
               | Some found => found
               | None => []
               end)) /\
  (forall pre ws post : string,
     noBacktick pre = true -> allSpace ws = true ->
     responseText response = pre ++ "```json" ++ ws ++ "```" ++ post ->
     jsonSource (responseText response) = responseText response) /\
  (noBacktick (responseText response) = true ->
   jsonSource (responseText response) = responseText response) /\
  (JSON_parse (jsonSource (responseText response)) = None ->
   exists g,
     generateQuestions topic (Some response) = Some g /\
     questions g = JArray [fallbackQuestion topic] /\
     questionCount (questions g) = Some 1%nat) /\
  (forall parsed : JSON,
     JSON_parse (jsonSource (responseText response)) = Some parsed ->
     exists g,
       generateQuestions topic (Some response) = Some g /\
       questions g = parsed).
Proof.
  split; [ | split; [ | split; [ | split]]].
  - intros pre ws1 body ws2 post Hpre Hw1 Hw2 Hbody E.
    pose proof (jsonSource_fenced pre ws1 body ws2 post Hpre Hw1 Hw2 Hbody)
      as J.
    rewrite <- E in J. split; [exact J | ].
    unfold generateQuestions. now rewrite J.
  - intros pre ws post Hpre Hws E. rewrite E.
    now apply jsonSource_blank.
  - apply jsonSource_plain.
  - unfold generateQuestions. intros H. rewrite H. eexists. repeat split.
  - unfold generateQuestions. intros parsed H. rewrite H. eexists.
    repeat split.
Qed.

End WithRuntime.

(** A fenced block whose body is not JSON: the body alone is handed to
    [JSON.parse], which throws, and the fallback question is returned; and a
    response without a fence that is not JSON. *)
Lemma generateQuestions_fallback_on_parse_error_witness :
  (jsonSource "Here you go: ```json not json ``` Enjoy!" = "not json" /\
   generateQuestions (runtime := referenceRuntime) "cats"
     (Some (mkResponse (Some "Here you go: ```json not json ``` Enjoy!") None))
   = Some (mkGenerated (JArray [fallbackQuestion "cats"]) [])) /\
  exists g,
    generateQuestions (runtime := referenceRuntime) "cats"
      (Some (mkResponse (Some "Sorry, no questions today.") None)) = Some g /\
    questions g = JArray [fallbackQuestion "cats"] /\
    questionCount (questions g) = Some 1%nat.
Proof.
  split.
  - apply (proj1 (generateQuestions_fallback_on_parse_error
                    (runtime := referenceRuntime) "cats"
                    (mkResponse
                       (Some "Here you go: ```json not json ``` Enjoy!") None))
             "Here you go: " " " "not json" " " " Enjoy!");
      reflexivity.
  - apply (proj1 (proj2 (proj2 (proj2
             (generateQuestions_fallback_on_parse_error
                (runtime := referenceRuntime) "cats"
                (mkResponse (Some "Sorry, no questions today.") None)))))).
    reflexivity.
Defined.

(** C10 fails as stated: the model call succeeds and answers with an empty
    JSON array, bare or in a fenced block, and the service returns an empty
    question list. *)
Lemma generateQuestions_empty_list :
  generateQuestions (runtime := referenceRuntime) "cats"
    (Some (mkResponse (Some "[]") None))
  = Some (mkGenerated (JArray []) []) /\
  generateQuestions (runtime := referenceRuntime) "cats"
    (Some (mkResponse (Some "Here you go: ```json [] ``` Enjoy!") None))
  = Some (mkGenerated (JArray []) []) /\
  questionCount (JArray []) = Some 0%nat.
Proof. repeat split; vm_compute; reflexivity. Qed.

End GeminiFacts.

(** ** The setup form *)

Module SetupFacts.

Import SetupScreen.

Lemma personality_id_not_empty (p : Personality) :
  List.In p PERSONALITIES -> id p <> EmptyString.
Proof.
  intros [<- | [<- | [<- | [<- | []]]]]; discriminate.
Qed.

Lemma run_personality (events : list FormEvent) (s : FormState) :
  (exists p, List.In p PERSONALITIES /\ personality s = id p) ->
  exists p, List.In p PERSONALITIES /\ personality (run events s) = id p.
Proof.
  revert s. induction events as [| e events IH]; intros s H; [exact H | ].
  apply IH. destruct e as [value | button]; cbn [step].
  - exact H.
  - destruct (List.nth_error PERSONALITIES button) as [p | ] eqn:E;
      [ | exact H].
    exists p. split; [ | reflexivity].
    eapply List.nth_error_In, E.
Qed.

(** X14.  Whatever the user typed and clicked in the setup form, the
    personality is the id of one of the four entries of [PERSONALITIES];
    hence submitting calls [onStart] exactly when the topic is not empty, and
    then with the topic and the personality of the form. *)
Theorem submit_starts_iff_topic_not_empty (events : list FormEvent) :
  let s := run events initial in
  (exists p, List.In p PERSONALITIES /\ personality s = id p) /\
  (handleSubmit s = None <-> topic s = EmptyString) /\
  (topic s <> EmptyString ->
   handleSubmit s = Some (App.mkConfig (topic s) (personality s))).
Proof.
  intros s.
  assert (exists p, List.In p PERSONALITIES /\ personality s = id p) as H.
  { apply run_personality. eexists. split; [left; reflexivity | reflexivity]. }
  split; [exact H | ].
  destruct H as (p & Hp & E).
  pose proof (personality_id_not_empty p Hp) as Hne. rewrite <- E in Hne.
  unfold handleSubmit.
  destruct (topic s) as [| c t]; destruct (personality s) as [| d q];
    try contradiction.
  - split; [split; reflexivity | intros H; contradiction].
  - split; [split; discriminate | reflexivity].
Qed.

End SetupFacts.
